(** * quick.db: the store facade ([QuickDB]) over the file-backed driver

    A shallow embedding of [src/index.ts] (class [QuickDB]) and of the
    file-backed driver ([JSONDriver], which extends [MemoryDriver]), with
    the properties of the path accessor, of the numeric and array
    operations and of the snapshot writer.

    Conventions of the embedding:
    - a JavaScript value is a term of [value]; objects are plain records
      of own data properties in insertion order, arrays carry their
      element slots (a hole is [None]) and their named properties;
      inherited properties, the virtual [length] of arrays and the
      properties of primitives are not part of the model;
    - a JavaScript number is an exact rational, an infinity or [NaN];
      binary64 rounding and the sign of zero are not modelled;
    - an [async] method is a computation in the monad [M]: it threads the
      state of the driver and of the disk and either returns or throws;
      calls are run one after the other, so the write lock is transparent;
    - lodash's [get], [set] and [unset] are modelled on their documented
      behaviour for paths in dot notation. *)

From Stdlib Require Import String Ascii List Bool Arith ZArith QArith Lia.
From Stdlib Require Import DecimalString.
Import ListNotations.
Open Scope string_scope.

Set Implicit Arguments.
Set Warnings "-register-all".

(** ** Numbers *)

Inductive number : Type :=
| NaN
| Inf (negative : bool)
| Fin (q : Q).

Definition num_zero : number := Fin 0.
Definition num_of_nat (n : nat) : number := Fin (inject_Z (Z.of_nat n)).
Definition num_of_Z (z : Z) : number := Fin (inject_Z z).

Definition num_neg (a : number) : number :=
  match a with
  | NaN => NaN
  | Inf s => Inf (negb s)
  | Fin q => Fin (Qopp q)
  end.

(** [a + b] on numbers. *)
Definition num_add (a b : number) : number :=
  match a, b with
  | NaN, _ | _, NaN => NaN
  | Inf s, Inf t => if Bool.eqb s t then Inf s else NaN
  | Inf s, Fin _ => Inf s
  | Fin _, Inf t => Inf t
  | Fin p, Fin q => Fin (Qplus p q)
  end.

(** [a - b] on numbers. *)
Definition num_sub (a b : number) : number := num_add a (num_neg b).

(** Equality of numbers as [Array.prototype.includes] sees it
    (SameValueZero): [NaN] is equal to itself. *)
Definition num_same (a b : number) : bool :=
  match a, b with
  | NaN, NaN => true
  | Inf s, Inf t => Bool.eqb s t
  | Fin p, Fin q => Qeq_bool p q
  | _, _ => false
  end.

(** ** Values *)

Inductive value : Type :=
| VUndef
| VNull
| VBool (b : bool)
| VNum (n : number)
| VStr (s : string)
| VArr (elems : list (option value)) (props : list (string * value))
| VObj (props : list (string * value)).

Definition empty_object : value := VObj [].
Definition empty_array : value := VArr [] [].

(** A dense array literal [[v1, ..., vn]]. *)
Definition array_of (vs : list value) : value := VArr (map Some vs) [].

(** [v == null]. *)
Definition nullish (v : value) : bool :=
  match v with
  | VUndef | VNull => true
  | _ => false
  end.

(** [a ?? b]. *)
Definition coalesce (a b : value) : value := if nullish a then b else a.

(** [typeof v == "number"]. *)
Definition is_number (v : value) : bool :=
  match v with
  | VNum _ => true
  | _ => false
  end.

(** [Array.isArray(v)]. *)
Definition isArray (v : value) : bool :=
  match v with
  | VArr _ _ => true
  | _ => false
  end.

(** [v instanceof Object], which is also lodash's [isObject] on data. *)
Definition isObject (v : value) : bool :=
  match v with
  | VArr _ _ | VObj _ => true
  | _ => false
  end.

(** SameValueZero. Objects and arrays are compared by identity; the values
    handed to the facade are fresh objects, never identical to a stored one. *)
Definition same_value_zero (a b : value) : bool :=
  match a, b with
  | VUndef, VUndef => true
  | VNull, VNull => true
  | VBool x, VBool y => Bool.eqb x y
  | VNum x, VNum y => num_same x y
  | VStr x, VStr y => String.eqb x y
  | _, _ => false
  end.

(** ** Strings: [includes], [split] and [join] on the dot *)

Definition dot : ascii := "."%char.

(** [s.includes(".")]. *)
Fixpoint includes_dot (s : string) : bool :=
  match s with
  | EmptyString => false
  | String c r => if Ascii.eqb c dot then true else includes_dot r
  end.

(** [s.split(".")]. *)
Fixpoint split_dot (s : string) : list string :=
  match s with
  | EmptyString => [""]
  | String c r =>
      if Ascii.eqb c dot then "" :: split_dot r
      else match split_dot r with
           | h :: t => String c h :: t
           | [] => [String c ""]
           end
  end.

(** [l.join(".")]. *)
Fixpoint join_dot (l : list string) : string :=
  match l with
  | [] => ""
  | [x] => x
  | x :: r => x ++ String dot (join_dot r)
  end.

(** [keySplit[0]] and [keySplit.slice(1).join(".")]. *)
Definition root_of (key : string) : string := hd "" (split_dot key).
Definition path_of (key : string) : string := join_dot (tl (split_dot key)).

(** ** Array indices *)

Definition digit_of (c : ascii) : option N :=
  let n := N_of_ascii c in
  if (48 <=? n)%N && (n <=? 57)%N then Some (n - 48)%N else None.

Fixpoint digits_value (acc : N) (s : string) : option N :=
  match s with
  | EmptyString => Some acc
  | String c r =>
      match digit_of c with
      | Some d => digits_value (acc * 10 + d)%N r
      | None => None
      end
  end.

(** The canonical decimal numerals: ["0"], or digits with no leading zero. *)
Definition canonical_numeral (s : string) : option N :=
  match s with
  | EmptyString => None
  | String c EmptyString => digit_of c
  | String c r =>
      match digit_of c with
      | Some 0%N => None
      | Some d => digits_value d r
      | None => None
      end
  end.

(** A property name that is an array index: a canonical numeral below
    [2^32 - 1]. *)
Definition array_index (k : string) : option nat :=
  match canonical_numeral k with
  | Some n => if (n <? 4294967295)%N then Some (N.to_nat n) else None
  | None => None
  end.

(** lodash's [isIndex]: a canonical numeral below [2^53 - 1]. *)
Definition isIndex (k : string) : bool :=
  match canonical_numeral k with
  | Some n => (n <? 9007199254740991)%N
  | None => false
  end.

(** The decimal numeral of a natural number, as in [String(i)]. *)
Definition string_of_nat (n : nat) : string :=
  NilEmpty.string_of_uint (Nat.to_uint n).

(** ** [parseFloat] *)

Definition is_space (c : ascii) : bool :=
  let n := N_of_ascii c in
  ((9 <=? n)%N && (n <=? 13)%N) || (n =? 32)%N.

Fixpoint skip_space (s : string) : string :=
  match s with
  | String c r => if is_space c then skip_space r else s
  | EmptyString => s
  end.

(** Reads a run of decimal digits: the number read so far, how many digits
    were read, and the rest of the string. *)
Fixpoint read_digits (acc : N) (count : nat) (s : string) : N * nat * string :=
  match s with
  | String c r =>
      match digit_of c with
      | Some d => read_digits (acc * 10 + d)%N (S count) r
      | None => (acc, count, s)
      end
  | EmptyString => (acc, count, s)
  end.

Definition read_sign (s : string) : bool * string :=
  match s with
  | String "-"%char r => (true, r)
  | String "+"%char r => (false, r)
  | _ => (false, s)
  end.

(** The exponent part [e], [e+] or [e-] with its digits; absent or without
    digits it contributes nothing. *)
Definition read_exponent (s : string) : Z :=
  match s with
  | String c r =>
      if Ascii.eqb c "e"%char || Ascii.eqb c "E"%char then
        let '(neg, r1) := read_sign r in
        let '(e, n, _) := read_digits 0 0 r1 in
        match n with
        | O => 0%Z
        | S _ => if neg then (- Z.of_N e)%Z else Z.of_N e
        end
      else 0%Z
  | EmptyString => 0%Z
  end.

(** [m * 10^e] as a rational. *)
Definition scale10 (m e : Z) : Q :=
  if (0 <=? e)%Z then inject_Z (m * 10 ^ e)
  else Qmake m (Z.to_pos (10 ^ (- e))).

(** [parseFloat] on a string: leading white space is skipped, the longest
    prefix that is a decimal literal is read, and [NaN] is the result when
    there is none. It never throws. *)
Definition parseFloat_string (s : string) : number :=
  let '(neg, s1) := read_sign (skip_space s) in
  if String.prefix "Infinity" s1 then Inf neg
  else
    let '(i, ni, s2) := read_digits 0 0 s1 in
    let '(m, nf, s3) :=
      match s2 with
      | String "."%char r => read_digits i 0 r
      | _ => (i, O, s2)
      end in
    match (ni + nf)%nat with
    | O => NaN
    | S _ =>
        let z := if neg then (- Z.of_N m)%Z else Z.of_N m in
        Fin (scale10 z (read_exponent s3 - Z.of_nat nf))
    end.

(** [parseFloat(v)]: the argument is first turned into a string. An array
    prints its elements separated by commas, so its numeric prefix is that
    of its first element; [true], [false] and ["[object Object]"] have none. *)
Fixpoint parseFloat (v : value) : number :=
  match v with
  | VStr s => parseFloat_string s
  | VNum n => n
  | VArr (Some x :: _) _ => parseFloat x
  | _ => NaN
  end.

(** ** Own properties *)

Section Assoc.
Context {K V : Type} (eqb : K -> K -> bool).

(** [Map.prototype.get], and the lookup of an own property. *)
Fixpoint amap_get (k : K) (m : list (K * V)) : option V :=
  match m with
  | [] => None
  | (k', v) :: r => if eqb k k' then Some v else amap_get k r
  end.

(** [Map.prototype.set]: an existing key keeps its place, a new one goes
    last. *)
Fixpoint amap_set (k : K) (v : V) (m : list (K * V)) : list (K * V) :=
  match m with
  | [] => [(k, v)]
  | (k', v') :: r =>
      if eqb k k' then (k', v) :: r else (k', v') :: amap_set k v r
  end.

(** [Map.prototype.delete]: no entry for the key is left. *)
Fixpoint amap_delete (k : K) (m : list (K * V)) : list (K * V) :=
  match m with
  | [] => []
  | (k', v') :: r =>
      if eqb k k' then amap_delete k r else (k', v') :: amap_delete k r
  end.

Definition amap_has (k : K) (m : list (K * V)) : bool :=
  match amap_get k m with
  | Some _ => true
  | None => false
  end.
End Assoc.

Definition props_get := @amap_get string value String.eqb.
Definition props_set := @amap_set string value String.eqb.
Definition props_delete := @amap_delete string value String.eqb.

(** Reading slot [i] of an array; a hole and a slot past the end read as
    [undefined]. *)
Definition slot_get (i : nat) (elems : list (option value)) : value :=
  match nth_error elems i with
  | Some (Some v) => v
  | _ => VUndef
  end.

(** Writing slot [i] of an array; writing past the end leaves holes. *)
Fixpoint slot_set (i : nat) (v : value) (elems : list (option value))
  : list (option value) :=
  match i, elems with
  | O, [] => [Some v]
  | O, _ :: r => Some v :: r
  | S j, [] => None :: slot_set j v []
  | S j, e :: r => e :: slot_set j v r
  end.

(** [delete arr[i]]: the slot becomes a hole. *)
Fixpoint slot_delete (i : nat) (elems : list (option value))
  : list (option value) :=
  match i, elems with
  | _, [] => []
  | O, _ :: r => None :: r
  | S j, e :: r => e :: slot_delete j r
  end.

(** [o[k]]. *)
Definition prop_get (o : value) (k : string) : value :=
  match o with
  | VObj ps =>
      match props_get k ps with Some v => v | None => VUndef end
  | VArr es ps =>
      match array_index k with
      | Some i => slot_get i es
      | None => match props_get k ps with Some v => v | None => VUndef end
      end
  | _ => VUndef
  end.

(** [o[k] = v]. *)
Definition prop_set (o : value) (k : string) (v : value) : value :=
  match o with
  | VObj ps => VObj (props_set k v ps)
  | VArr es ps =>
      match array_index k with
      | Some i => VArr (slot_set i v es) ps
      | None => VArr es (props_set k v ps)
      end
  | _ => o
  end.

(** [delete o[k]]. *)
Definition prop_delete (o : value) (k : string) : value :=
  match o with
  | VObj ps => VObj (props_delete k ps)
  | VArr es ps =>
      match array_index k with
      | Some i => VArr (slot_delete i es) ps
      | None => VArr es (props_delete k ps)
      end
  | _ => o
  end.

(** ** lodash: [get], [set], [unset]

    The three functions of lodash that the facade imports. A path string is
    read in dot notation: its segments are the pieces between the dots. *)

Module Lodash.

Definition castPath (path : string) : list string := split_dot path.

(** Follows the segments while the current value is not [null] or
    [undefined]; running out of structure before the last segment gives
    [undefined]. *)
Fixpoint baseGet (object : value) (path : list string) : value :=
  match path with
  | [] => object
  | k :: rest =>
      if nullish object then VUndef else baseGet (prop_get object k) rest
  end.

Definition get (object : value) (path : string) : value :=
  if nullish object then VUndef
  else match castPath path with
       | [] => VUndef
       | p => baseGet object p
       end.

(** Writes [v] at the end of the path. A level that is missing, or that
    is not an object, is replaced by a fresh array when the next segment
    is an index and by a fresh object otherwise. *)
Fixpoint baseSet (object : value) (path : list string) (v : value) : value :=
  match path with
  | [] => object
  | [key] => prop_set object key v
  | key :: ((next :: _) as rest) =>
      let objValue := prop_get object key in
      let child :=
        if isObject objValue then objValue
        else if isIndex next then empty_array else empty_object in
      prop_set object key (baseSet child rest v)
  end.

(** [set] returns its first argument, updated in place. *)
Definition set (object : value) (path : string) (v : value) : value :=
  if nullish object then object
  else if isObject object then baseSet object (castPath path) v
  else object.

Fixpoint baseUnset (object : value) (path : list string) : value :=
  match path with
  | [] => object
  | [key] => prop_delete object key
  | key :: rest =>
      let child := prop_get object key in
      if isObject child then prop_set object key (baseUnset child rest)
      else object
  end.

(** [unset] updates its first argument in place; the embedding returns
    the object as it is after the call (the facade ignores the boolean
    that lodash returns). *)
Definition unset (object : value) (path : string) : value :=
  if nullish object then object
  else match castPath path with
       | [] => prop_delete object "undefined"
       | p => baseUnset object p
       end.

End Lodash.

(** ** State and effects *)

(** A table is a [Map] from row ids to values, the store a [Map] from table
    names to tables; both keep insertion order. A row id is compared as
    [Map] compares keys. *)
Definition Table := list (value * value).
Definition Store := list (string * Table).
Definition Disk := list (string * string).

Definition table_get := @amap_get value value same_value_zero.
Definition table_set := @amap_set value value same_value_zero.
Definition table_delete := @amap_delete value value same_value_zero.
Definition store_get := @amap_get string Table String.eqb.
Definition store_set := @amap_set string Table String.eqb.
Definition disk_get := @amap_get string string String.eqb.
Definition disk_set := @amap_set string string String.eqb.

(** What a call leaves behind besides the state: the row writes of the
    table store and the files written. *)
Inductive Event : Type :=
| EvSetRow (table key : string) (v : value)
| EvDeleteRow (table key : string)
| EvDeleteAll (table : string)
| EvWriteFile (path content : string).

Record State : Type := mkState {
  store : Store;
  disk : Disk;
  log : list Event
}.

Definition with_store (f : Store -> Store) (s : State) : State :=
  mkState (f (store s)) (disk s) (log s).
Definition with_disk (f : Disk -> Disk) (s : State) : State :=
  mkState (store s) (f (disk s)) (log s).
Definition with_event (e : Event) (s : State) : State :=
  mkState (store s) (disk s) (log s ++ [e]).

Inductive Error : Type :=
| Err (message : string)
| TypeError (message : string)
| SyntaxError (message : string).

Inductive result (A : Type) : Type :=
| Ok (a : A)
| Throw (e : Error).
Arguments Ok {A} a.
Arguments Throw {A} e.

(** A computation: from a state to a result, or an exception, and the state
    at that point. *)
Definition M (A : Type) : Type := State -> result A * State.

Definition ret {A} (a : A) : M A := fun s => (Ok a, s).
Definition throw {A} (e : Error) : M A := fun s => (Throw e, s).
Definition bind {A B} (m : M A) (k : A -> M B) : M B :=
  fun s =>
    match m s with
    | (Ok a, s') => k a s'
    | (Throw e, s') => (Throw e, s')
    end.
Definition try_catch {A} (m : M A) (handler : Error -> M A) : M A :=
  fun s =>
    match m s with
    | (Ok a, s') => (Ok a, s')
    | (Throw e, s') => handler e s'
    end.
Definition gets {A} (f : State -> A) : M A := fun s => (Ok (f s), s).
Definition modify (f : State -> State) : M unit := fun s => (Ok tt, f s).

Declare Scope monad_scope.
Delimit Scope monad_scope with monad.
Notation "x <- m ;; k" := (bind m (fun x => k))
  (at level 61, m at next level, right associativity) : monad_scope.
Notation "m ;;; k" := (bind m (fun _ => k))
  (at level 61, right associativity) : monad_scope.
Open Scope monad_scope.

(** [for (const x of l) body(x)]. *)
Fixpoint for_each {A} (l : list A) (body : A -> M unit) : M unit :=
  match l with
  | [] => ret tt
  | x :: r => body x ;;; for_each r body
  end.

(** A row as [getAllRows] and the snapshot show it: [{ id, value }]. *)
Definition DataLike (id v : value) : value :=
  VObj [("id", id); ("value", v)].

(** The driver contract [IDriver]. *)
Record IDriver : Type := mkDriver {
  prepare : string -> M unit;
  getAllRows : string -> M (list value);
  getRowByKey : string -> string -> M (value * bool);
  setRowByKey : string -> string -> value -> bool -> M value;
  deleteRowByKey : string -> string -> M nat;
  deleteAllRows : string -> M nat
}.

(** ** The in-memory table store ([MemoryDriver]) *)

Module MemoryDriver.

(** Modelled from the spec: [MemoryDriver.getOrCreateTable], whose source
    is not part of the files under study. It returns the existing table
    or creates and registers an empty one, and never fails (spec 4.1). *)
Definition getOrCreateTable (name : string) : M Table :=
  fun s =>
    match store_get name (store s) with
    | Some t => (Ok t, s)
    | None => (Ok [], with_store (store_set name []) s)
    end.

(** [store.set(id, v)] on the table registered under [name], the [Map]
    that [getOrCreateTable(name)] returned. *)
Definition table_put (name : string) (id v : value) : M unit :=
  modify (with_store (fun st =>
    match store_get name st with
    | Some t => store_set name (table_set id v t) st
    | None => st
    end)).

(** Modelled from the spec: [MemoryDriver.prepare] readies the table
    (spec 4.4), which registers it. *)
Definition prepare (table : string) : M unit :=
  _ <- getOrCreateTable table ;; ret tt.

(** Modelled from the spec: [MemoryDriver.getAllRows] lists the rows in
    the table's own order (spec 4.1, [listRows]). *)
Definition getAllRows (table : string) : M (list value) :=
  t <- getOrCreateTable table ;;
  ret (map (fun kv => DataLike (fst kv) (snd kv)) t).

(** Modelled from the spec: [MemoryDriver.getRowByKey] returns the value,
    or [null] when the row is absent, and whether the id was set before
    (spec 4.1, [getRow]). *)
Definition getRowByKey (table key : string) : M (value * bool) :=
  t <- getOrCreateTable table ;;
  match table_get (VStr key) t with
  | Some v => ret (v, true)
  | None => ret (VNull, false)
  end.

(** Modelled from the spec: [MemoryDriver.setRowByKey] inserts or
    overwrites and returns the stored value unchanged (spec 4.1,
    [setRow]); the hint [update] is not needed in memory (spec 9). *)
Definition setRowByKey (table key : string) (v : value) (update : bool)
  : M value :=
  _ <- getOrCreateTable table ;;
  table_put table (VStr key) v ;;;
  modify (with_event (EvSetRow table key v)) ;;;
  ret v.

(** Modelled from the spec: [MemoryDriver.deleteRowByKey] returns the
    number of rows removed, 0 or 1 (spec 4.1, [deleteRow]). *)
Definition deleteRowByKey (table key : string) : M nat :=
  t <- getOrCreateTable table ;;
  modify (with_store (store_set table (table_delete (VStr key) t))) ;;;
  modify (with_event (EvDeleteRow table key)) ;;;
  ret (if amap_has same_value_zero (VStr key) t then 1 else 0)%nat.

(** Modelled from the spec: [MemoryDriver.deleteAllRows] clears the
    entries of that table only, keeps the table registered and returns
    the number of rows removed (spec 4.1). *)
Definition deleteAllRows (table : string) : M nat :=
  t <- getOrCreateTable table ;;
  modify (with_store (store_set table [])) ;;;
  modify (with_event (EvDeleteAll table)) ;;;
  ret (length t).

(** Modelled from the spec: the in-memory store as a driver (spec 4.4). *)
Definition driver : IDriver :=
  mkDriver prepare getAllRows getRowByKey setRowByKey deleteRowByKey
           deleteAllRows.

End MemoryDriver.

(** ** The file-backed driver ([JSONDriver]) *)

(** The slots of an array that are not holes, in order. *)
Fixpoint present (elems : list (option value)) : list value :=
  match elems with
  | [] => []
  | Some v :: r => v :: present r
  | None :: r => present r
  end.

(** The indices of the slots that are not holes, from [i] on. *)
Fixpoint present_indices (i : nat) (elems : list (option value)) : list string :=
  match elems with
  | [] => []
  | Some _ :: r => string_of_nat i :: present_indices (S i) r
  | None :: r => present_indices (S i) r
  end.

(** The keys that [for (const k in v)] visits. *)
Definition for_in_keys (v : value) : list string :=
  match v with
  | VObj ps => map fst ps
  | VArr es ps => present_indices 0 es ++ map fst ps
  | VStr s => map string_of_nat (seq 0 (String.length s))
  | _ => []
  end.

Module JSONDriver.
Section JSONDriver.

(** [JSON.parse], [None] when it throws, and [JSON.stringify] with the
    replacer and the indentation the driver was built with. *)
Variable JSON_parse : string -> option value.
Variable JSON_stringify : value -> string.

(** The field [path] of the driver. *)
Variable path : string.

(** [existsSync] and [readFileSync] in one: the contents, if the file is
    there. *)
Definition readFile (p : string) : M (option string) :=
  gets (fun s => disk_get p (disk s)).

(** [writeFile] of write-file-atomic: the file is replaced as a whole. *)
Definition writeFile (p content : string) : M unit :=
  modify (with_disk (disk_set p content)) ;;;
  modify (with_event (EvWriteFile p content)).

(** [data[table].forEach((d) => store.set(d.id, d.value))]. *)
Definition load_rows (table : string) (rows : value) : M unit :=
  match rows with
  | VArr elems _ =>
      for_each (present elems) (fun d =>
        if nullish d
        then throw (TypeError "Cannot read properties of null")
        else MemoryDriver.table_put table (prop_get d "id") (prop_get d "value"))
  | VUndef | VNull => throw (TypeError "Cannot read properties of null")
  | _ => throw (TypeError "forEach is not a function")
  end.

Definition loadContentSync : M unit :=
  file <- readFile path ;;
  match file with
  | Some contents =>
      try_catch
        (match JSON_parse contents with
         | None => throw (SyntaxError "Unexpected token")
         | Some data =>
             for_each (for_in_keys data) (fun table =>
               _ <- MemoryDriver.getOrCreateTable table ;;
               load_rows table (prop_get data table))
         end)
        (fun _ => throw (Err "Database malformed"))
  | None => writeFile path "{}"
  end.

(** [loadContent] does the same with the asynchronous [readFile] and
    [writeFile]. *)
Definition loadContent : M unit := loadContentSync.

(** The constructor: an empty store, then [loadContentSync]. An exception
    leaves the caller without a driver. *)
Definition new (d : Disk) : result State :=
  match loadContentSync (mkState [] d []) with
  | (Ok _, s) => Ok s
  | (Throw e, _) => Throw e
  end.

Fixpoint export_tables (names : list string) (val : value) : M value :=
  match names with
  | [] => ret val
  | tableName :: r =>
      rows <- MemoryDriver.getAllRows tableName ;;
      export_tables r (prop_set val tableName (array_of rows))
  end.

Definition export : M value :=
  names <- gets (fun s => map fst (store s)) ;;
  export_tables names empty_object.

Definition snapshot : M unit :=
  data <- export ;;
  writeFile path (JSON_stringify data).

Definition deleteAllRows (table : string) : M nat :=
  val <- MemoryDriver.deleteAllRows table ;;
  snapshot ;;;
  ret val.

Definition deleteRowByKey (table key : string) : M nat :=
  val <- MemoryDriver.deleteRowByKey table key ;;
  snapshot ;;;
  ret val.

Definition setRowByKey (table key : string) (v : value) (update : bool)
  : M value :=
  val <- MemoryDriver.setRowByKey table key v update ;;
  snapshot ;;;
  ret val.

Definition driver : IDriver :=
  mkDriver MemoryDriver.prepare MemoryDriver.getAllRows
           MemoryDriver.getRowByKey setRowByKey deleteRowByKey
           deleteAllRows.

End JSONDriver.
End JSONDriver.

(** ** Array methods used by the facade *)

(** [a.concat(b)] for an array [b]: the slots of [a], then those of [b]. *)
Definition array_concat (a b : value) : value :=
  match a, b with
  | VArr ea _, VArr eb _ => VArr (ea ++ eb) []
  | _, _ => a
  end.

(** [a.push(v)], in place. *)
Definition array_push (a v : value) : value :=
  match a with
  | VArr ea pa => VArr (ea ++ [Some v]) pa
  | _ => a
  end.

(** [a.includes(x)]: a hole counts as [undefined]. *)
Definition array_includes (a x : value) : bool :=
  match a with
  | VArr ea _ =>
      existsb (fun e => same_value_zero
                          (match e with Some v => v | None => VUndef end) x) ea
  | _ => false
  end.

Fixpoint filter_slots (keep : value -> nat -> bool) (i : nat)
         (elems : list (option value)) : list value :=
  match elems with
  | [] => []
  | None :: r => filter_slots keep (S i) r
  | Some v :: r =>
      if keep v i then v :: filter_slots keep (S i) r
      else filter_slots keep (S i) r
  end.

(** [a.filter(callback)]: the callback receives the element, its index and
    the array; holes are skipped and the result is a fresh dense array. *)
Definition array_filter (callback : value -> nat -> value -> bool) (a : value)
  : value :=
  match a with
  | VArr ea _ => array_of (filter_slots (fun v i => callback v i a) 0 ea)
  | _ => a
  end.

(** The second argument of [pull]: a value, an array of values, or a
    function [(data) => boolean], which [filter] calls with the element, its
    index and the array. *)
Inductive PullArg : Type :=
| PValue (v : value)
| PFunction (f : value -> nat -> value -> bool).

(** ** The facade ([QuickDB]) *)

Module QuickDB.
Section QuickDB.

(** The fields [driver] and [tableName] of the instance. Keys are
    strings, so the guard [typeof key != "string"] never fires. *)
Variable driver : IDriver.
Variable tableName : string.

(** The constructor readies its table. *)
Definition prepared : M unit := prepare driver tableName.

Definition all : M (list value) := getAllRows driver tableName.

Definition get (key : string) : M value :=
  if includes_dot key then
    r <- getRowByKey driver tableName (root_of key) ;;
    ret (Lodash.get (fst r) (path_of key))
  else
    r <- getRowByKey driver tableName key ;;
    ret (fst r).

Definition set (key : string) (v : value) : M value :=
  if nullish v then throw (Err "Missing second argument (value)")
  else if includes_dot key then
    r <- getRowByKey driver tableName (root_of key) ;;
    let result := fst r in
    let exist := snd r in
    (* If it's not an instance of an object (rewrite it) *)
    let obj := if negb (isObject result) then empty_object else result in
    let valueSet := Lodash.set (coalesce obj empty_object) (path_of key) v in
    setRowByKey driver tableName (root_of key) valueSet exist
  else
    r <- getRowByKey driver tableName key ;;
    setRowByKey driver tableName key v (snd r).

Definition has (key : string) : M bool :=
  v <- get key ;; ret (negb (nullish v)).

Definition delete (key : string) : M value :=
  if includes_dot key then
    v <- get (root_of key) ;;
    let obj := coalesce v empty_object in
    let obj := Lodash.unset obj (path_of key) in
    set (root_of key) obj
  else
    n <- deleteRowByKey driver tableName key ;;
    ret (VNum (num_of_nat n)).

Definition deleteAll : M nat := deleteAllRows driver tableName.

(** The second argument has type [number], so the guard
    [value == null] never fires. *)
Definition addSubtract (key : string) (v : number) (sub : bool) : M value :=
  currentNumber <- get key ;;
  let currentNumber :=
    if nullish currentNumber then VNum num_zero else currentNumber in
  currentNumber <-
    (if negb (is_number currentNumber) then
       try_catch
         (ret (VNum (parseFloat currentNumber)))
         (fun _ => throw (Err ("Current value with key: (" ++ key ++
            ") is not a number and couldn't be parsed to a number")))
     else ret currentNumber) ;;
  let n := match currentNumber with VNum n => n | _ => NaN end in
  set key (VNum (if sub then num_sub n v else num_add n v)).

Definition getArray (key : string) : M value :=
  v <- get key ;;
  let currentArr := coalesce v empty_array in
  if negb (isArray currentArr)
  then throw (Err ("Current value with key: (" ++ key ++ ") is not an array"))
  else ret currentArr.

Definition add (key : string) (v : number) : M value :=
  addSubtract key v false.

Definition sub (key : string) (v : number) : M value :=
  addSubtract key v true.

Definition push (key : string) (v : value) : M value :=
  if nullish v then throw (Err "Missing second argument (value)")
  else
    currentArr <- getArray key ;;
    let currentArr :=
      if isArray v then array_concat currentArr v
      else array_push currentArr v in
    set key currentArr.

Definition pull (key : string) (arg : PullArg) : M value :=
  if match arg with PValue v => nullish v | PFunction _ => false end
  then throw (Err "Missing second argument (value)")
  else
    currentArr <- getArray key ;;
    let arg :=
      match arg with
      | PValue v => if negb (isArray v) then PValue (array_of [v]) else arg
      | PFunction _ => arg
      end in
    let currentArr :=
      array_filter
        (fun x i a =>
           match arg with
           | PValue values => negb (array_includes values x)
           | PFunction f => negb (f x i a)
           end)
        currentArr in
    set key currentArr.

(** [table(name)]: a facade on the same driver bound to another table;
    its constructor readies the table. [tableAsync] awaits that. *)
Definition table (name : string) : M (IDriver * string) :=
  prepare driver name ;;; ret (driver, name).

Definition tableAsync (name : string) : M (IDriver * string) := table name.

End QuickDB.
End QuickDB.


(** ** JSON text

    The driver is parameterised by [JSON.parse] and [JSON.stringify]. The
    two functions below are the instances used to run it on concrete files:
    they follow the JSON grammar for texts without [\u] escapes, keep the
    properties of an object in the order of the text, and print a number in
    plain decimal notation. *)

Module JSON.

Definition quote : ascii := "034"%char.
Definition backslash : ascii := "092"%char.

Definition is_ws (c : ascii) : bool :=
  let n := N_of_ascii c in
  (n =? 32)%N || (n =? 9)%N || (n =? 10)%N || (n =? 13)%N.

Fixpoint skip_ws (s : string) : string :=
  match s with
  | String c r => if is_ws c then skip_ws r else s
  | EmptyString => s
  end.

Fixpoint drop (n : nat) (s : string) : string :=
  match n, s with
  | S m, String _ r => drop m r
  | _, _ => s
  end.

(** The characters of a string literal up to its closing quote. *)
Fixpoint parse_string (s : string) : option (string * string) :=
  match s with
  | EmptyString => None
  | String c r =>
      if Ascii.eqb c quote then Some ("", r)
      else if Ascii.eqb c backslash then
        match r with
        | String e r' =>
            let plain (x : ascii) :=
              match parse_string r' with
              | Some (str, rest) => Some (String x str, rest)
              | None => None
              end in
            if Ascii.eqb e quote then plain quote
            else if Ascii.eqb e backslash then plain backslash
            else if Ascii.eqb e "/" then plain "/"%char
            else if Ascii.eqb e "b" then plain "008"%char
            else if Ascii.eqb e "f" then plain "012"%char
            else if Ascii.eqb e "n" then plain "010"%char
            else if Ascii.eqb e "r" then plain "013"%char
            else if Ascii.eqb e "t" then plain "009"%char
            else None
        | EmptyString => None
        end
      else if (N_of_ascii c <? 32)%N then None
      else
        match parse_string r with
        | Some (str, rest) => Some (String c str, rest)
        | None => None
        end
  end.

(** A number: [-]? int frac? exp?, with no leading zero in the integer
    part and at least one digit after the point and in the exponent. *)
Definition parse_number (s : string) : option (value * string) :=
  let '(neg, s1) :=
    match s with
    | String "-"%char r => (true, r)
    | _ => (false, s)
    end in
  let int_part :=
    match s1 with
    | String "0"%char r => Some (0%N, r)
    | _ => match read_digits 0 0 s1 with
           | (_, O, _) => None
           | (i, S _, r) => Some (i, r)
           end
    end in
  match int_part with
  | None => None
  | Some (i, s2) =>
      let frac :=
        match s2 with
        | String "."%char r =>
            match read_digits i 0 r with
            | (_, O, _) => None
            | (m, S n, r') => Some (m, S n, r')
            end
        | _ => Some (i, O, s2)
        end in
      match frac with
      | None => None
      | Some (m, nf, s3) =>
          let exponent :=
            match s3 with
            | String c r =>
                if Ascii.eqb c "e" || Ascii.eqb c "E" then
                  let '(eneg, r1) := read_sign r in
                  match read_digits 0 0 r1 with
                  | (_, O, _) => None
                  | (e, S _, r2) =>
                      Some (if eneg then (- Z.of_N e)%Z else Z.of_N e, r2)
                  end
                else Some (0%Z, s3)
            | EmptyString => Some (0%Z, s3)
            end in
          match exponent with
          | None => None
          | Some (e, s4) =>
              let z := if neg then (- Z.of_N m)%Z else Z.of_N m in
              Some (VNum (Fin (scale10 z (e - Z.of_nat nf))), s4)
          end
      end
  end.

Fixpoint parse_value (fuel : nat) (s : string) : option (value * string) :=
  match fuel with
  | O => None
  | S fuel =>
      match skip_ws s with
      | EmptyString => None
      | String c r as s' =>
          if Ascii.eqb c "[" then
            match skip_ws r with
            | String "]"%char r' => Some (empty_array, r')
            | _ => parse_elements fuel r []
            end
          else if Ascii.eqb c "{" then
            match skip_ws r with
            | String "}"%char r' => Some (empty_object, r')
            | _ => parse_members fuel r empty_object
            end
          else if Ascii.eqb c quote then
            match parse_string r with
            | Some (str, r') => Some (VStr str, r')
            | None => None
            end
          else if String.prefix "null" s' then Some (VNull, drop 4 s')
          else if String.prefix "true" s' then Some (VBool true, drop 4 s')
          else if String.prefix "false" s' then Some (VBool false, drop 5 s')
          else parse_number s'
      end
  end
with parse_elements (fuel : nat) (s : string) (acc : list value)
     : option (value * string) :=
  match fuel with
  | O => None
  | S fuel =>
      match parse_value fuel s with
      | Some (v, r) =>
          match skip_ws r with
          | String ","%char r' => parse_elements fuel r' (acc ++ [v])
          | String "]"%char r' => Some (array_of (acc ++ [v]), r')
          | _ => None
          end
      | None => None
      end
  end
with parse_members (fuel : nat) (s : string) (acc : value)
     : option (value * string) :=
  match fuel with
  | O => None
  | S fuel =>
      match skip_ws s with
      | String c r =>
          if Ascii.eqb c quote then
            match parse_string r with
            | Some (k, r1) =>
                match skip_ws r1 with
                | String ":"%char r2 =>
                    match parse_value fuel r2 with
                    | Some (v, r3) =>
                        match skip_ws r3 with
                        | String ","%char r4 =>
                            parse_members fuel r4 (prop_set acc k v)
                        | String "}"%char r4 => Some (prop_set acc k v, r4)
                        | _ => None
                        end
                    | None => None
                    end
                | _ => None
                end
            | None => None
            end
          else None
      | EmptyString => None
      end
  end.

(** [JSON.parse(text)]; [None] stands for the [SyntaxError]. *)
Definition parse (text : string) : option value :=
  match parse_value (2 * String.length text + 2) text with
  | Some (v, r) =>
      match skip_ws r with
      | EmptyString => Some v
      | _ => None
      end
  | None => None
  end.

Definition hex_digit (n : N) : ascii :=
  ascii_of_N (if (n <? 10)%N then 48 + n else 87 + n).

Definition escape_char (c : ascii) : string :=
  let n := N_of_ascii c in
  if (n =? 34)%N then String backslash (String quote "")
  else if (n =? 92)%N then String backslash (String backslash "")
  else if (n =? 8)%N then "\b"
  else if (n =? 12)%N then "\f"
  else if (n =? 10)%N then "\n"
  else if (n =? 13)%N then "\r"
  else if (n =? 9)%N then "\t"
  else if (n <? 32)%N then
    "\u00" ++ String (hex_digit (n / 16)) (String (hex_digit (n mod 16)) "")
  else String c "".

Fixpoint escape (s : string) : string :=
  match s with
  | EmptyString => ""
  | String c r => escape_char c ++ escape r
  end.

Definition quoted (s : string) : string :=
  String quote (escape s ++ String quote "").

Definition string_of_Z (z : Z) : string :=
  NilZero.string_of_int (Z.to_int z).

Fixpoint fraction_digits (fuel : nat) (r d : Z) : string :=
  match fuel with
  | O => ""
  | S fuel =>
      if (r =? 0)%Z then ""
      else String (ascii_of_N (48 + Z.to_N (r * 10 / d)))
                  (fraction_digits fuel ((r * 10) mod d) d)
  end.

Definition string_of_Q (q : Q) : string :=
  let d := Zpos (Qden q) in
  let a := Z.abs (Qnum q) in
  (if (Qnum q <? 0)%Z then "-" else "") ++
  string_of_Z (a / d) ++
  (if (a mod d =? 0)%Z then "" else "." ++ fraction_digits 17 (a mod d) d).

Definition join_comma (l : list string) : string :=
  String.concat "," l.

(** [JSON.stringify(v)] without replacer or indentation. [undefined],
    [NaN] and the infinities print as [null] inside an array; a property
    whose value is [undefined] is left out. *)
Fixpoint stringify (v : value) : string :=
  match v with
  | VUndef | VNull => "null"
  | VBool true => "true"
  | VBool false => "false"
  | VNum (Fin q) => string_of_Q q
  | VNum _ => "null"
  | VStr s => quoted s
  | VArr es _ =>
      "[" ++ join_comma
               (map (fun e => match e with
                              | Some x => stringify x
                              | None => "null"
                              end) es) ++ "]"
  | VObj ps =>
      "{" ++ join_comma
               (flat_map (fun kv =>
                            if same_value_zero (snd kv) VUndef then []
                            else [quoted (fst kv) ++ ":" ++ stringify (snd kv)])
                         ps) ++ "}"
  end.

End JSON.

(** ** Views of the state, used to state the properties *)

(** The rows of a table; a table that is not registered has none. *)
Definition rows (t : string) (st : Store) : Table :=
  match store_get t st with
  | Some tb => tb
  | None => []
  end.

Definition registered (t : string) (st : Store) : Prop :=
  store_get t st <> None.

(** The store once table [t] has been referenced. *)
Definition register (t : string) (st : Store) : Store :=
  match store_get t st with
  | Some _ => st
  | None => store_set t [] st
  end.

(** The value of row [k] of table [t], [null] when there is no such row. *)
Definition row_value (t k : string) (st : Store) : value :=
  match table_get (VStr k) (rows t st) with
  | Some v => v
  | None => VNull
  end.

Definition row_exists (t k : string) (st : Store) : bool :=
  amap_has same_value_zero (VStr k) (rows t st).

(** The store once row [k] of table [t] has been written. *)
Definition put_row (t k : string) (v : value) (st : Store) : Store :=
  store_set t (table_set (VStr k) v (rows t st)) st.

(** The row that a key addresses: the key itself, or its first segment. *)
Definition row_of (key : string) : string :=
  if includes_dot key then root_of key else key.

(** What [get(key)] reads in a store. *)
Definition lookup (t key : string) (st : Store) : value :=
  if includes_dot key
  then Lodash.get (row_value t (root_of key) st) (path_of key)
  else row_value t key st.

(** What [set(key, v)] writes into the row of the key. *)
Definition written (t key : string) (v : value) (st : Store) : value :=
  if includes_dot key
  then
    let r := row_value t (root_of key) st in
    Lodash.set (if isObject r then r else empty_object) (path_of key) v
  else v.

(** What [export] builds from a store. *)
Definition export_value (st : Store) : value :=
  fold_left
    (fun val name =>
       prop_set val name
         (array_of (map (fun kv => DataLike (fst kv) (snd kv)) (rows name st))))
    (map fst st) empty_object.

(** The text that a snapshot of the store writes. *)
Definition snapshot_text (JSON_stringify : value -> string) (st : Store)
  : string :=
  JSON_stringify (export_value st).

(** The state once the store has been written to the file at [path]. *)
Definition persisted (JSON_stringify : value -> string) (path : string)
           (st : Store) (d : Disk) (l : list Event) : State :=
  mkState st (disk_set path (snapshot_text JSON_stringify st) d)
          (l ++ [EvWriteFile path (snapshot_text JSON_stringify st)]).

(** The number that [addSubtract] makes of the current value. *)
Definition current_number (x : value) : number :=
  if nullish x then num_zero
  else match x with
       | VNum c => c
       | _ => parseFloat x
       end.








(** ** Sequences of calls *)

(** A call on the facade bound to a table. *)
Inductive Command : Type :=
| CPrepare (table : string)
| CAll (table : string)
| CGet (table key : string)
| CHas (table key : string)
| CSet (table key : string) (v : value)
| CDelete (table key : string)
| CDeleteAll (table : string)
| CAdd (table key : string) (n : number)
| CSub (table key : string) (n : number)
| CPush (table key : string) (v : value)
| CPull (table key : string) (arg : PullArg).

(** The state that a call leaves, whether it returns or throws. *)
Definition run_command (driver : IDriver) (c : Command) (s : State) : State :=
  match c with
  | CPrepare t => snd (QuickDB.prepared driver t s)
  | CAll t => snd (QuickDB.all driver t s)
  | CGet t k => snd (QuickDB.get driver t k s)
  | CHas t k => snd (QuickDB.has driver t k s)
  | CSet t k v => snd (QuickDB.set driver t k v s)
  | CDelete t k => snd (QuickDB.delete driver t k s)
  | CDeleteAll t => snd (QuickDB.deleteAll driver t s)
  | CAdd t k n => snd (QuickDB.add driver t k n s)
  | CSub t k n => snd (QuickDB.sub driver t k n s)
  | CPush t k v => snd (QuickDB.push driver t k v s)
  | CPull t k arg => snd (QuickDB.pull driver t k arg s)
  end.

Definition run_commands (driver : IDriver) (cs : list Command) (s : State)
  : State :=
  fold_left (fun s c => run_command driver c s) cs s.


(** ** Sample instances *)

(** The driver over [./quickdb.json], its default path, with the plain
    [JSON.stringify]; the default table of the facade is [json]. *)
Definition sample_driver : IDriver :=
  JSONDriver.driver JSON.stringify "./quickdb.json".

(** A fresh driver before any call. *)
Definition fresh : State := mkState [] [("./quickdb.json", "{}")] [].

Definition num (z : Z) : value := VNum (num_of_Z z).

(** The state of the sample driver once [key] has been set to [v] in the
    table [json]. *)
Definition holding (key : string) (v : value) : State :=
  snd (QuickDB.set sample_driver "json" key v fresh).


(** A snapshot file whose table [t] is the number 5 instead of an array
    of rows. *)
Definition rows_not_an_array : string :=
  "{" ++ JSON.quoted "t" ++ ":5}".

(** ** Further views *)


(** The snapshot file holds the serialisation of the store as it is. *)
Definition synced (JSON_stringify : value -> string) (path : string)
           (s : State) : Prop :=
  disk_get path (disk s) = Some (snapshot_text JSON_stringify (store s)).

(** Every run of [m] takes a state to one that [R] relates to it. *)
Definition stable {A} (R : State -> State -> Prop) (m : M A) : Prop :=
  forall s, R s (snd (m s)).

(** Nothing was written between [s] and [s']: the disk and the log of row
    and file writes are the same. *)
Definition quiet (s s' : State) : Prop :=
  disk s' = disk s /\ log s' = log s.

(** The exception that a result carries, if any. *)
Definition error_of {A} (r : result A) : option Error :=
  match r with
  | Ok _ => None
  | Throw e => Some e
  end.

(** The exception that a call on the facade throws, if any. *)
Definition thrown (driver : IDriver) (c : Command) (s : State) : option Error :=
  match c with
  | CPrepare t => error_of (fst (QuickDB.prepared driver t s))
  | CAll t => error_of (fst (QuickDB.all driver t s))
  | CGet t k => error_of (fst (QuickDB.get driver t k s))
  | CHas t k => error_of (fst (QuickDB.has driver t k s))
  | CSet t k v => error_of (fst (QuickDB.set driver t k v s))
  | CDelete t k => error_of (fst (QuickDB.delete driver t k s))
  | CDeleteAll t => error_of (fst (QuickDB.deleteAll driver t s))
  | CAdd t k n => error_of (fst (QuickDB.add driver t k n s))
  | CSub t k n => error_of (fst (QuickDB.sub driver t k n s))
  | CPush t k v => error_of (fst (QuickDB.push driver t k v s))
  | CPull t k arg => error_of (fst (QuickDB.pull driver t k arg s))
  end.

(** The calls that write: all but [prepare], [all], [get] and [has]. *)
Definition mutating (c : Command) : bool :=
  match c with
  | CPrepare _ | CAll _ | CGet _ _ | CHas _ _ => false
  | _ => true
  end.

(** A write of a row, or of all the rows of a table, as opposed to a write
    of the file. *)
Definition row_event (e : Event) : bool :=
  match e with
  | EvWriteFile _ _ => false
  | _ => true
  end.

(** No entry of the list has a key that matches the key of an earlier
    entry: the entries are those of a [Map]. *)
Fixpoint distinct_keys {K V} (eqb : K -> K -> bool) (m : list (K * V)) : Prop :=
  match m with
  | [] => True
  | (k, _) :: r =>
      Forall (fun kv => eqb (fst kv) k = false) r /\ distinct_keys eqb r
  end.

(** No table name is registered twice and no row id is held twice by a
    table. *)
Definition well_formed (st : Store) : Prop :=
  distinct_keys String.eqb st /\
  Forall (fun e => distinct_keys same_value_zero (snd e)) st.

(** Well-formedness carries over from [s] to [s']. *)
Definition keeps_well_formed (s s' : State) : Prop :=
  well_formed (store s) -> well_formed (store s').



(** * Properties *)

(** ** Maps in insertion order *)

Section AssocFacts.
Context {K V : Type} (eqb : K -> K -> bool).

Lemma amap_get_set_same (k : K) (v : V) (m : list (K * V)) :
  eqb k k = true ->
  amap_get eqb k (amap_set eqb k v m) = Some v.
Proof.
  intros Hk. induction m as [|[k' v'] m IH]; simpl.
  - now rewrite Hk.
  - destruct (eqb k k') eqn:E; simpl; rewrite E; auto.
Qed.

Lemma amap_set_set (k : K) (v w : V) (m : list (K * V)) :
  eqb k k = true ->
  amap_set eqb k v (amap_set eqb k w m) = amap_set eqb k v m.
Proof.
  intros Hk. induction m as [|[k' v'] m IH]; simpl.
  - now rewrite Hk.
  - destruct (eqb k k') eqn:E; simpl; rewrite E; auto. now rewrite IH.
Qed.





Lemma amap_get_keys (m : list (K * V)) :
  (forall k, eqb k k = true) ->
  Forall (fun k => amap_get eqb k m <> None) (map fst m).
Proof.
  intros Hrefl. induction m as [|[k0 v0] m IH]; simpl; constructor.
  - rewrite Hrefl. congruence.
  - eapply Forall_impl; [|exact IH]. simpl. intros k Hk.
    destruct (eqb k k0); congruence.
Qed.
End AssocFacts.

Lemma same_value_zero_str (k : string) :
  same_value_zero (VStr k) (VStr k) = true.
Proof. simpl. apply String.eqb_refl. Qed.

(** ** Own properties: reading after writing and after deleting *)

Lemma slot_get_set_same (i : nat) (v : value) (es : list (option value)) :
  slot_get i (slot_set i v es) = v.
Proof.
  unfold slot_get. revert es.
  induction i as [|i IH]; intros [|e es]; simpl; auto.
Qed.



Lemma prop_get_set_same (o : value) (k : string) (v : value) :
  isObject o = true -> prop_get (prop_set o k v) k = v.
Proof.
  destruct o; simpl; try discriminate; intros _.
  - destruct (array_index k) eqn:E; simpl; rewrite E.
    + apply slot_get_set_same.
    + unfold props_get, props_set.
      now rewrite amap_get_set_same by apply String.eqb_refl.
  - unfold props_get, props_set.
    now rewrite amap_get_set_same by apply String.eqb_refl.
Qed.


Lemma isObject_prop_set (o : value) (k : string) (v : value) :
  isObject (prop_set o k v) = isObject o.
Proof. destruct o; simpl; auto. now destruct (array_index k). Qed.

Lemma isObject_not_nullish (o : value) : isObject o = true -> nullish o = false.
Proof. now destruct o. Qed.

(** ** lodash: what [get] reads after [set] and after [unset] *)

Lemma split_dot_nonempty (s : string) : split_dot s <> [].
Proof.
  induction s as [|c r IH]; simpl; try discriminate.
  destruct (Ascii.eqb c dot); try discriminate.
  destruct (split_dot r); discriminate.
Qed.

Lemma isObject_baseSet (path : list string) (o v : value) :
  isObject (Lodash.baseSet o path v) = isObject o.
Proof.
  destruct path as [|k [|n r]]; simpl; auto using isObject_prop_set.
Qed.

Lemma baseGet_baseSet (path : list string) (o v : value) :
  path <> [] -> isObject o = true ->
  Lodash.baseGet (Lodash.baseSet o path v) path = v.
Proof.
  revert o. induction path as [|k rest IH]; intros o Hne Ho; [congruence|].
  destruct rest as [|n r].
  - simpl. rewrite isObject_not_nullish by now rewrite isObject_prop_set.
    now apply prop_get_set_same.
  - cbn [Lodash.baseSet Lodash.baseGet].
    rewrite isObject_not_nullish by now rewrite isObject_prop_set.
    rewrite prop_get_set_same by assumption.
    apply IH; [discriminate|].
    destruct (isObject (prop_get o k)) eqn:E; auto.
    now destruct (isIndex n).
Qed.

Lemma lodash_get_set (o : value) (path : string) (v : value) :
  isObject o = true -> Lodash.get (Lodash.set o path v) path = v.
Proof.
  intros Ho. unfold Lodash.get, Lodash.set, Lodash.castPath.
  rewrite (isObject_not_nullish _ Ho), Ho.
  rewrite isObject_not_nullish by now rewrite isObject_baseSet.
  pose proof (split_dot_nonempty path) as Hne.
  destruct (split_dot path) as [|k r] eqn:E; [congruence|].
  apply baseGet_baseSet; auto.
Qed.





(** ** The table store *)

Lemma store_get_set_same (t : string) (x : Table) (st : Store) :
  store_get t (store_set t x st) = Some x.
Proof. apply amap_get_set_same, String.eqb_refl. Qed.

Lemma store_set_set (t : string) (x y : Table) (st : Store) :
  store_set t x (store_set t y st) = store_set t x st.
Proof. apply amap_set_set, String.eqb_refl. Qed.

Lemma store_get_register (t : string) (st : Store) :
  store_get t (register t st) = Some (rows t st).
Proof.
  unfold register, rows. destruct (store_get t st) eqn:E; auto.
  apply store_get_set_same.
Qed.

Lemma rows_register (t : string) (st : Store) :
  rows t (register t st) = rows t st.
Proof. unfold rows at 1. now rewrite store_get_register. Qed.

Lemma store_set_register (t : string) (x : Table) (st : Store) :
  store_set t x (register t st) = store_set t x st.
Proof.
  unfold register. destruct (store_get t st); auto. apply store_set_set.
Qed.

Lemma register_registered (t : string) (st : Store) :
  registered t st -> register t st = st.
Proof.
  unfold registered, register. destruct (store_get t st); congruence.
Qed.

Lemma registered_register (t : string) (st : Store) :
  registered t (register t st).
Proof. unfold registered. rewrite store_get_register. discriminate. Qed.


Lemma registered_put_row (t k : string) (v : value) (st : Store) :
  registered t (put_row t k v st).
Proof.
  unfold registered, put_row. rewrite store_get_set_same. discriminate.
Qed.

Lemma rows_put_row (t k : string) (v : value) (st : Store) :
  rows t (put_row t k v st) = table_set (VStr k) v (rows t st).
Proof. unfold rows at 1, put_row. now rewrite store_get_set_same. Qed.

Lemma put_row_register (t k : string) (v : value) (st : Store) :
  put_row t k v (register t st) = put_row t k v st.
Proof. unfold put_row. now rewrite rows_register, store_set_register. Qed.

Lemma row_value_put_row (t k : string) (v : value) (st : Store) :
  row_value t k (put_row t k v st) = v.
Proof.
  unfold row_value. rewrite rows_put_row. unfold table_get, table_set.
  now rewrite amap_get_set_same by apply same_value_zero_str.
Qed.

Lemma row_value_register (t k : string) (st : Store) :
  row_value t k (register t st) = row_value t k st.
Proof. unfold row_value. now rewrite rows_register. Qed.

(** A row that holds a value lives in a registered table. *)
Lemma row_value_registered (t k : string) (st : Store) :
  nullish (row_value t k st) = false -> registered t st.
Proof.
  unfold row_value, rows, registered.
  destruct (store_get t st); [discriminate|]. simpl. discriminate.
Qed.

Lemma with_store_registered (t : string) (s : State) :
  registered t (store s) -> with_store (register t) s = s.
Proof.
  intros H. destruct s as [st d l]. unfold with_store. simpl in *.
  now rewrite register_registered.
Qed.

(** ** The drivers, run on a state *)

Lemma getOrCreateTable_run (t : string) (s : State) :
  MemoryDriver.getOrCreateTable t s =
  (Ok (rows t (store s)), with_store (register t) s).
Proof.
  unfold MemoryDriver.getOrCreateTable, rows, register, with_store.
  destruct s as [st d l]. simpl. now destruct (store_get t st).
Qed.

Lemma memory_getRowByKey_run (t k : string) (s : State) :
  MemoryDriver.getRowByKey t k s =
  (Ok (row_value t k (store s), row_exists t k (store s)),
   with_store (register t) s).
Proof.
  unfold MemoryDriver.getRowByKey, bind. rewrite getOrCreateTable_run.
  unfold row_value, row_exists, amap_has, table_get.
  now destruct (amap_get same_value_zero (VStr k) (rows t (store s))).
Qed.

Lemma memory_getAllRows_run (t : string) (s : State) :
  MemoryDriver.getAllRows t s =
  (Ok (map (fun kv => DataLike (fst kv) (snd kv)) (rows t (store s))),
   with_store (register t) s).
Proof.
  unfold MemoryDriver.getAllRows, bind. now rewrite getOrCreateTable_run.
Qed.

Lemma memory_setRowByKey_run (t k : string) (v : value) (u : bool) (s : State) :
  MemoryDriver.setRowByKey t k v u s =
  (Ok v, mkState (put_row t k v (store s)) (disk s) (log s ++ [EvSetRow t k v])).
Proof.
  unfold MemoryDriver.setRowByKey, bind. rewrite getOrCreateTable_run.
  unfold MemoryDriver.table_put, modify, ret, with_store, with_event. simpl.
  rewrite store_get_register.
  now rewrite store_set_register.
Qed.

Lemma memory_deleteAllRows_run (t : string) (s : State) :
  MemoryDriver.deleteAllRows t s =
  (Ok (length (rows t (store s))),
   mkState (store_set t [] (store s)) (disk s) (log s ++ [EvDeleteAll t])).
Proof.
  unfold MemoryDriver.deleteAllRows, bind. rewrite getOrCreateTable_run.
  unfold modify, ret, with_store, with_event. simpl.
  now rewrite store_set_register.
Qed.

Lemma memory_deleteRowByKey_run (t k : string) (s : State) :
  MemoryDriver.deleteRowByKey t k s =
  (Ok (if row_exists t k (store s) then 1 else 0)%nat,
   mkState (store_set t (table_delete (VStr k) (rows t (store s))) (store s))
           (disk s) (log s ++ [EvDeleteRow t k])).
Proof.
  unfold MemoryDriver.deleteRowByKey, bind. rewrite getOrCreateTable_run.
  unfold modify, ret, with_store, with_event. simpl.
  now rewrite store_set_register.
Qed.

Section JSONDriverFacts.
Variable JSON_stringify : value -> string.
Variable path : string.

Local Abbreviation snapshot := (JSONDriver.snapshot JSON_stringify path).
Local Abbreviation persisted := (persisted JSON_stringify path).

Lemma export_tables_run (names : list string) (val : value) (s : State) :
  Forall (fun n => registered n (store s)) names ->
  JSONDriver.export_tables names val s =
  (Ok (fold_left
         (fun val name =>
            prop_set val name
              (array_of (map (fun kv => DataLike (fst kv) (snd kv))
                             (rows name (store s)))))
         names val), s).
Proof.
  intros H. revert val. induction H as [|n names Hn _ IH]; intros val.
  - reflexivity.
  - simpl. unfold bind. rewrite memory_getAllRows_run.
    rewrite with_store_registered by assumption. apply IH.
Qed.

Lemma export_run (s : State) :
  JSONDriver.export s = (Ok (export_value (store s)), s).
Proof.
  unfold JSONDriver.export, bind, gets. apply export_tables_run.
  apply (amap_get_keys String.eqb). apply String.eqb_refl.
Qed.

Lemma snapshot_run (s : State) :
  snapshot s = (Ok tt, persisted (store s) (disk s) (log s)).
Proof.
  unfold JSONDriver.snapshot, bind. rewrite export_run.
  reflexivity.
Qed.

Lemma json_setRowByKey_run (t k : string) (v : value) (u : bool) (s : State) :
  JSONDriver.setRowByKey JSON_stringify path t k v u s =
  (Ok v, persisted (put_row t k v (store s)) (disk s)
                   (log s ++ [EvSetRow t k v])).
Proof.
  unfold JSONDriver.setRowByKey, bind. rewrite memory_setRowByKey_run.
  now rewrite snapshot_run.
Qed.

Lemma json_deleteAllRows_run (t : string) (s : State) :
  JSONDriver.deleteAllRows JSON_stringify path t s =
  (Ok (length (rows t (store s))),
   persisted (store_set t [] (store s)) (disk s) (log s ++ [EvDeleteAll t])).
Proof.
  unfold JSONDriver.deleteAllRows, bind. rewrite memory_deleteAllRows_run.
  now rewrite snapshot_run.
Qed.

Lemma json_deleteRowByKey_run (t k : string) (s : State) :
  JSONDriver.deleteRowByKey JSON_stringify path t k s =
  (Ok (if row_exists t k (store s) then 1 else 0)%nat,
   persisted (store_set t (table_delete (VStr k) (rows t (store s))) (store s))
             (disk s) (log s ++ [EvDeleteRow t k])).
Proof.
  unfold JSONDriver.deleteRowByKey, bind. rewrite memory_deleteRowByKey_run.
  now rewrite snapshot_run.
Qed.
End JSONDriverFacts.

(** ** Keys *)

Lemma includes_dot_root_of (key : string) : includes_dot (root_of key) = false.
Proof.
  unfold root_of. induction key as [|c r IH]; simpl; auto.
  destruct (Ascii.eqb c dot) eqn:E; simpl; auto.
  destruct (split_dot r) as [|h t] eqn:Er; simpl in *.
  - now rewrite E.
  - now rewrite E.
Qed.

Lemma row_of_root_of (key : string) : row_of (root_of key) = root_of key.
Proof. unfold row_of. now rewrite includes_dot_root_of. Qed.

(** ** The facade over the file-backed driver, run on a state *)

Lemma nullish_prop_set (o : value) (k : string) (v : value) :
  nullish (prop_set o k v) = nullish o.
Proof. destruct o; simpl; auto. now destruct (array_index k). Qed.

Lemma nullish_prop_delete (o : value) (k : string) :
  nullish (prop_delete o k) = nullish o.
Proof. destruct o; simpl; auto. now destruct (array_index k). Qed.

Lemma nullish_unset (o : value) (path : string) :
  nullish (Lodash.unset o path) = nullish o.
Proof.
  unfold Lodash.unset. destruct (nullish o) eqn:E; auto.
  destruct (Lodash.castPath path) as [|k [|n r]]; simpl.
  - now rewrite nullish_prop_delete.
  - now rewrite nullish_prop_delete.
  - destruct (isObject (prop_get o k)); auto. now rewrite nullish_prop_set.
Qed.

Lemma nullish_coalesce (v d : value) :
  nullish d = false -> nullish (coalesce v d) = false.
Proof. unfold coalesce. now destruct (nullish v) eqn:E. Qed.

Section FacadeFacts.
Variable JSON_stringify : value -> string.
Variable path : string.
Variable T : string.

Local Abbreviation jd := (JSONDriver.driver JSON_stringify path).
Local Abbreviation persisted := (persisted JSON_stringify path).

(** The state that [set(key, v)] leaves. *)
Local Abbreviation after_set key w s :=
  (persisted (put_row T (row_of key) w (store s)) (disk s)
             (log s ++ [EvSetRow T (row_of key) w])).

Lemma get_run (key : string) (s : State) :
  QuickDB.get jd T key s =
  (Ok (lookup T key (store s)), with_store (register T) s).
Proof.
  unfold QuickDB.get, lookup.
  destruct (includes_dot key); simpl; unfold bind;
    now rewrite memory_getRowByKey_run.
Qed.

Lemma set_run (key : string) (v : value) (s : State) :
  nullish v = false ->
  QuickDB.set jd T key v s =
  (Ok (written T key v (store s)), after_set key (written T key v (store s)) s).
Proof.
  intros Hv. unfold QuickDB.set, written, row_of. rewrite Hv.
  destruct (includes_dot key); simpl; unfold bind;
    rewrite memory_getRowByKey_run; simpl;
    rewrite json_setRowByKey_run; simpl.
  - rewrite put_row_register.
    destruct (row_value T (root_of key) (store s)); reflexivity.
  - now rewrite put_row_register.
Qed.

Lemma written_register (key : string) (v : value) (st : Store) :
  written T key v (register T st) = written T key v st.
Proof. unfold written. now rewrite row_value_register. Qed.

Lemma lookup_register (key : string) (st : Store) :
  lookup T key (register T st) = lookup T key st.
Proof. unfold lookup. now rewrite !row_value_register. Qed.

(** [set] begins by reading the row, so a table referenced just before
    makes no difference. *)
Lemma set_run_registered (key : string) (v : value) (s : State) :
  nullish v = false ->
  QuickDB.set jd T key v (with_store (register T) s) =
  (Ok (written T key v (store s)), after_set key (written T key v (store s)) s).
Proof.
  intros Hv. rewrite set_run by assumption. simpl.
  now rewrite written_register, put_row_register.
Qed.

(** What [get(key)] reads once [set(key, v)] has written. *)
Lemma lookup_written (key : string) (v : value) (st : Store) :
  lookup T key (put_row T (row_of key) (written T key v st) st) = v.
Proof.
  unfold lookup, written, row_of. destruct (includes_dot key).
  - rewrite row_value_put_row. apply lodash_get_set.
    now destruct (isObject (row_value T (root_of key) st)) eqn:E.
  - apply row_value_put_row.
Qed.

Lemma delete_dotted_run (key : string) (s : State) :
  includes_dot key = true ->
  let obj := Lodash.unset
               (coalesce (row_value T (root_of key) (store s)) empty_object)
               (path_of key) in
  QuickDB.delete jd T key s =
  (Ok obj,
   persisted (put_row T (root_of key) obj (store s)) (disk s)
             (log s ++ [EvSetRow T (root_of key) obj])).
Proof.
  intros Hd obj. unfold QuickDB.delete. rewrite Hd. unfold bind.
  rewrite get_run. unfold lookup. rewrite includes_dot_root_of.
  fold obj. rewrite set_run_registered.
  - unfold written. now rewrite row_of_root_of, includes_dot_root_of.
  - unfold obj. rewrite nullish_unset. now apply nullish_coalesce.
Qed.

Lemma addSubtract_run (key : string) (n : number) (sub : bool) (s : State) :
  let r := if sub then num_sub (current_number (lookup T key (store s))) n
           else num_add (current_number (lookup T key (store s))) n in
  QuickDB.addSubtract jd T key n sub s =
  (Ok (written T key (VNum r) (store s)),
   after_set key (written T key (VNum r) (store s)) s).
Proof.
  intros r. subst r. unfold QuickDB.addSubtract, bind. rewrite get_run.
  unfold current_number.
  destruct (lookup T key (store s)); simpl;
    now rewrite set_run_registered.
Qed.

Lemma getArray_run (key : string) (s : State) :
  QuickDB.getArray jd T key s =
  (if isArray (coalesce (lookup T key (store s)) empty_array)
   then Ok (coalesce (lookup T key (store s)) empty_array)
   else Throw (Err ("Current value with key: (" ++ key ++ ") is not an array")),
   with_store (register T) s).
Proof.
  unfold QuickDB.getArray, bind. rewrite get_run.
  now destruct (isArray (coalesce (lookup T key (store s)) empty_array)).
Qed.
End FacadeFacts.

(** ** The path accessor *)


(** C2. A dotted [set] on a row whose current value is not a structure (a
    scalar, or no row at all) starts from an empty structure: the row then
    holds the nested path alone, whatever it held before. *)
Theorem dotted_set_discards_scalar
        (JSON_stringify : value -> string) (path T key : string)
        (v r : value) (s : State) :
  includes_dot key = true ->
  nullish v = false ->
  fst (QuickDB.get (JSONDriver.driver JSON_stringify path) T (root_of key) s) = Ok r ->
  isObject r = false ->
  exists w s1,
    QuickDB.set (JSONDriver.driver JSON_stringify path) T key v s = (Ok w, s1) /\
    w = Lodash.set empty_object (path_of key) v /\
    fst (QuickDB.get (JSONDriver.driver JSON_stringify path) T (root_of key) s1) = Ok w.
Proof.
  intros Hd Hv Hget Hr. rewrite get_run in Hget. simpl in Hget.
  unfold lookup in Hget. rewrite includes_dot_root_of in Hget.
  injection Hget as Hget.
  eexists. eexists. split; [now apply set_run|].
  rewrite get_run. simpl. unfold lookup, written, row_of.
  rewrite Hd, includes_dot_root_of, Hget, Hr, row_value_put_row. auto.
Qed.

(** ** Numbers *)



Lemma num_add_NaN_l (n : number) : num_add NaN n = NaN.
Proof. reflexivity. Qed.

Lemma num_sub_NaN_l (n : number) : num_sub NaN n = NaN.
Proof. reflexivity. Qed.

Lemma addSubtract_unparseable
        (JSON_stringify : value -> string) (path T key str : string)
        (n : number) (sub : bool) (s : State) :
  fst (QuickDB.get (JSONDriver.driver JSON_stringify path) T key s) = Ok (VStr str) ->
  parseFloat_string str = NaN ->
  exists w s1,
    QuickDB.addSubtract (JSONDriver.driver JSON_stringify path) T key n sub s
    = (Ok w, s1) /\
    fst (QuickDB.get (JSONDriver.driver JSON_stringify path) T key s1)
    = Ok (VNum NaN).
Proof.
  intros Hget Hnan. rewrite get_run in Hget. simpl in Hget.
  injection Hget as Hget.
  eexists. eexists. split; [apply addSubtract_run|].
  rewrite get_run. simpl. rewrite lookup_written, Hget.
  unfold current_number. simpl. rewrite Hnan. now destruct sub.
Qed.

(** Whatever the key holds, [add] and [sub] return: the error prepared in
    the handler of [addSubtract] is never thrown. *)
Remark addSubtract_never_throws
       (JSON_stringify : value -> string) (path T key : string)
       (n : number) (sub : bool) (s : State) :
  exists w s1,
    QuickDB.addSubtract (JSONDriver.driver JSON_stringify path) T key n sub s
    = (Ok w, s1).
Proof. eexists. eexists. apply addSubtract_run. Qed.

(** C3, as the code runs it. On a key that holds a string with no numeric
    prefix, [add] and [sub] do not throw: [parseFloat] answers [NaN], the
    handler of the [try] is never entered, and [NaN] is written over the
    stored string. *)
Theorem add_sub_on_unparseable_string_store_NaN
        (JSON_stringify : value -> string) (path T key str : string)
        (n : number) (s : State) :
  fst (QuickDB.get (JSONDriver.driver JSON_stringify path) T key s) = Ok (VStr str) ->
  parseFloat_string str = NaN ->
  (exists w s1,
     QuickDB.add (JSONDriver.driver JSON_stringify path) T key n s = (Ok w, s1) /\
     fst (QuickDB.get (JSONDriver.driver JSON_stringify path) T key s1)
     = Ok (VNum NaN)) /\
  (exists w s1,
     QuickDB.sub (JSONDriver.driver JSON_stringify path) T key n s = (Ok w, s1) /\
     fst (QuickDB.get (JSONDriver.driver JSON_stringify path) T key s1)
     = Ok (VNum NaN)).
Proof.
  intros Hget Hnan. split; now apply addSubtract_unparseable with (str := str).
Qed.

(** ** Arrays *)


Lemma array_includes_singleton (v x : value) :
  array_includes (array_of [v]) x = same_value_zero v x.
Proof. simpl. apply orb_false_r. Qed.


Section ArrayFacts.
Variable JSON_stringify : value -> string.
Variable path : string.
Variable T : string.

Local Abbreviation jd := (JSONDriver.driver JSON_stringify path).

End ArrayFacts.


(** ** Removing a leaf *)













(** ** Type mismatches *)

Lemma lodash_get_nullish (o : value) (path : string) :
  nullish o = true -> Lodash.get o path = VUndef.
Proof. unfold Lodash.get. now intros ->. Qed.

(** A key that reads a value lives in a registered table. *)
Lemma lookup_registered (t key : string) (st : Store) :
  nullish (lookup t key st) = false -> registered t st.
Proof.
  unfold lookup. destruct (includes_dot key).
  - intros H. apply row_value_registered with (k := root_of key).
    destruct (nullish (row_value t (root_of key) st)) eqn:E; auto.
    now rewrite lodash_get_nullish in H.
  - apply row_value_registered.
Qed.

(** C6. On a key whose stored value exists and is not an array, [push] and
    [pull] throw (the error says that the current value is not an array,
    unless the second argument is missing) and leave the state as it was:
    nothing is appended, filtered or written. *)
Theorem push_pull_on_non_array
        (JSON_stringify : value -> string) (path T key : string)
        (v : value) (arg : PullArg) (x : value) (s : State) :
  fst (QuickDB.get (JSONDriver.driver JSON_stringify path) T key s) = Ok x ->
  nullish x = false ->
  isArray x = false ->
  QuickDB.push (JSONDriver.driver JSON_stringify path) T key v s
  = (Throw (Err (if nullish v then "Missing second argument (value)"
                 else "Current value with key: (" ++ key ++ ") is not an array")),
     s) /\
  QuickDB.pull (JSONDriver.driver JSON_stringify path) T key arg s
  = (Throw (Err (if match arg with PValue a => nullish a | PFunction _ => false end
                 then "Missing second argument (value)"
                 else "Current value with key: (" ++ key ++ ") is not an array")),
     s).
Proof.
  intros Hget Hx Ha. rewrite get_run in Hget. simpl in Hget.
  injection Hget as Hget.
  assert (Hreg : with_store (register T) s = s).
  { apply with_store_registered, lookup_registered with (key := key).
    now rewrite Hget. }
  assert (Hc : coalesce x empty_array = x) by (unfold coalesce; now rewrite Hx).
  split.
  - unfold QuickDB.push. destruct (nullish v); [reflexivity|].
    unfold bind. rewrite getArray_run, Hget, Hc, Ha, Hreg. reflexivity.
  - unfold QuickDB.pull.
    destruct (match arg with PValue a => nullish a | PFunction _ => false end);
      [reflexivity|].
    unfold bind. rewrite getArray_run, Hget, Hc, Ha, Hreg. reflexivity.
Qed.



(** ** Construction of the file-backed driver *)

Lemma loadContentSync_throws (JSON_parse : string -> option value)
      (path : string) (s s' : State) (e : Error) :
  JSONDriver.loadContentSync JSON_parse path s = (Throw e, s') ->
  e = Err "Database malformed".
Proof.
  unfold JSONDriver.loadContentSync, bind, JSONDriver.readFile, gets.
  destruct (disk_get path (disk s)) as [contents|].
  - unfold try_catch.
    match goal with
    | |- context [match ?m s with _ => _ end] => destruct (m s) as [[a|e'] s'']
    end.
    + discriminate.
    + unfold throw. congruence.
  - unfold JSONDriver.writeFile, bind, modify. discriminate.
Qed.

(** C7. When the snapshot file exists and does not parse, the constructor
    throws and no driver comes up; whatever goes wrong while the file is
    loaded, the constructor throws, so a driver never comes up partially
    loaded. When there is no file, the constructor writes the empty
    snapshot ["{}"] before it returns the driver, whose store is empty. *)
Theorem construction_loads_or_fails
        (JSON_parse : string -> option value) (path : string) (d : Disk) :
  (forall contents,
     disk_get path d = Some contents ->
     JSON_parse contents = None ->
     JSONDriver.new JSON_parse path d = Throw (Err "Database malformed")) /\
  (forall e s,
     JSONDriver.loadContentSync JSON_parse path (mkState [] d []) = (Throw e, s) ->
     JSONDriver.new JSON_parse path d = Throw (Err "Database malformed")) /\
  (disk_get path d = None ->
   JSONDriver.new JSON_parse path d
   = Ok (mkState [] (disk_set path "{}" d) [EvWriteFile path "{}"])).
Proof.
  split; [|split].
  - intros contents Hfile Hparse.
    unfold JSONDriver.new, JSONDriver.loadContentSync, bind,
      JSONDriver.readFile, gets. simpl.
    now rewrite Hfile, Hparse.
  - intros e s H. unfold JSONDriver.new. rewrite H.
    now rewrite (loadContentSync_throws _ _ _ H).
  - intros Hfile.
    unfold JSONDriver.new, JSONDriver.loadContentSync, bind,
      JSONDriver.readFile, gets. simpl.
    now rewrite Hfile.
Qed.

(** ** Tables stay registered *)






Section KeepsFacts.
Variable JSON_stringify : value -> string.
Variable path : string.
Variable t : string.

Local Abbreviation jd := (JSONDriver.driver JSON_stringify path).
















End KeepsFacts.

(** ** Export *)

Lemma amap_get_set_other {V} (t n : string) (v : V) (m : list (string * V)) :
  String.eqb t n = false ->
  amap_get String.eqb t (amap_set String.eqb n v m) = amap_get String.eqb t m.
Proof.
  intros Hne. induction m as [|[k0 v0] m IH]; simpl.
  - now rewrite Hne.
  - destruct (String.eqb n k0) eqn:E; simpl.
    + apply String.eqb_eq in E. subst k0. now rewrite Hne.
    + destruct (String.eqb t k0); auto.
Qed.





(** ** The properties on concrete runs *)


(** C2 on a row that holds the number 3: [set("a.b", 5)] leaves [{b: 5}]. *)
Lemma dotted_set_discards_scalar_witness :
  includes_dot "a.b" = true /\
  nullish (num 5) = false /\
  fst (QuickDB.get sample_driver "json" "a" (holding "a" (num 3))) = Ok (num 3) /\
  isObject (num 3) = false /\
  exists w s1,
    QuickDB.set sample_driver "json" "a.b" (num 5) (holding "a" (num 3))
    = (Ok w, s1) /\
    w = VObj [("b", num 5)] /\
    fst (QuickDB.get sample_driver "json" "a" s1) = Ok w.
Proof.
  repeat (split; [reflexivity|]).
  exact (@dotted_set_discards_scalar JSON.stringify "./quickdb.json" "json"
           "a.b" (num 5) (num 3) (holding "a" (num 3))
           eq_refl eq_refl eq_refl eq_refl).
Defined.

(** C3 on the key [n] holding ["not a number"]: [add("n", 5)] and
    [sub("n", 5)] return, and the key then holds [NaN]. *)
Lemma add_sub_on_unparseable_string_witness :
  fst (QuickDB.get sample_driver "json" "n" (holding "n" (VStr "not a number")))
  = Ok (VStr "not a number") /\
  parseFloat_string "not a number" = NaN /\
  (exists w s1,
     QuickDB.add sample_driver "json" "n" (num_of_Z 5)
                 (holding "n" (VStr "not a number")) = (Ok w, s1) /\
     fst (QuickDB.get sample_driver "json" "n" s1) = Ok (VNum NaN)) /\
  (exists w s1,
     QuickDB.sub sample_driver "json" "n" (num_of_Z 5)
                 (holding "n" (VStr "not a number")) = (Ok w, s1) /\
     fst (QuickDB.get sample_driver "json" "n" s1) = Ok (VNum NaN)).
Proof.
  split; [reflexivity|]. split; [reflexivity|].
  exact (@add_sub_on_unparseable_string_store_NaN JSON.stringify
           "./quickdb.json" "json" "n" "not a number" (num_of_Z 5)
           (holding "n" (VStr "not a number")) eq_refl eq_refl).
Defined.





(** C6 on a row that holds the number 3. *)
Lemma push_pull_on_non_array_witness :
  fst (QuickDB.get sample_driver "json" "a" (holding "a" (num 3))) = Ok (num 3) /\
  nullish (num 3) = false /\
  isArray (num 3) = false /\
  QuickDB.push sample_driver "json" "a" (num 1) (holding "a" (num 3))
  = (Throw (Err "Current value with key: (a) is not an array"),
     holding "a" (num 3)) /\
  QuickDB.pull sample_driver "json" "a" (PValue (num 1)) (holding "a" (num 3))
  = (Throw (Err "Current value with key: (a) is not an array"),
     holding "a" (num 3)).
Proof.
  split; [reflexivity|]. split; [reflexivity|]. split; [reflexivity|].
  exact (@push_pull_on_non_array JSON.stringify "./quickdb.json" "json" "a"
           (num 1) (PValue (num 1)) (num 3) (holding "a" (num 3))
           eq_refl eq_refl eq_refl).
Defined.

(** C7 on three disks: a file that does not parse, a file that parses but
    whose table is not an array of rows, and no file. *)
Lemma construction_loads_or_fails_witness :
  (disk_get "./quickdb.json" [("./quickdb.json", "{")] = Some "{" /\
   JSON.parse "{" = None /\
   JSONDriver.new JSON.parse "./quickdb.json" [("./quickdb.json", "{")]
   = Throw (Err "Database malformed")) /\
  (JSONDriver.loadContentSync JSON.parse "./quickdb.json"
     (mkState [] [("./quickdb.json", rows_not_an_array)] [])
   = (Throw (Err "Database malformed"),
      mkState [("t", [])] [("./quickdb.json", rows_not_an_array)] []) /\
   JSONDriver.new JSON.parse "./quickdb.json"
                  [("./quickdb.json", rows_not_an_array)]
   = Throw (Err "Database malformed")) /\
  (disk_get "./quickdb.json" [] = None /\
   JSONDriver.new JSON.parse "./quickdb.json" []
   = Ok (mkState [] [("./quickdb.json", "{}")]
                 [EvWriteFile "./quickdb.json" "{}"])).
Proof.
  split; [|split].
  - split; [reflexivity|]. split; [reflexivity|].
    exact (proj1 (construction_loads_or_fails JSON.parse "./quickdb.json"
                    [("./quickdb.json", "{")]) "{" eq_refl eq_refl).
  - split; [reflexivity|].
    exact (proj1 (proj2 (construction_loads_or_fails JSON.parse "./quickdb.json"
                           [("./quickdb.json", rows_not_an_array)]))
                 _ _ eq_refl).
  - split; [reflexivity|].
    exact (proj2 (proj2 (construction_loads_or_fails JSON.parse "./quickdb.json"
                           [])) eq_refl).
Defined.





(** ** The examples of the specification *)

Example add_twice :
  fst (QuickDB.get sample_driver "json" "n"
         (snd (QuickDB.add sample_driver "json" "n" (num_of_Z 3)
                 (snd (QuickDB.add sample_driver "json" "n" (num_of_Z 5) fresh)))))
  = Ok (num 8).
Proof. reflexivity. Qed.

Example push_on_absent :
  fst (QuickDB.push sample_driver "json" "arr" (num 1) fresh)
  = Ok (array_of [num 1]).
Proof. reflexivity. Qed.

Example push_many :
  fst (QuickDB.push sample_driver "json" "arr" (array_of [num 2; num 3])
         (holding "arr" (array_of [num 1])))
  = Ok (array_of [num 1; num 2; num 3]).
Proof. reflexivity. Qed.

Example parseFloat_prefix :
  parseFloat_string "  -12.5e1abc" = Fin (-125 # 1) /\
  parseFloat_string "not a number" = NaN /\
  parseFloat (array_of [VStr "7 days"; num 1]) = Fin (7 # 1).
Proof. repeat split. Qed.

Example reload_snapshot :
  JSONDriver.new JSON.parse "./quickdb.json"
    (disk (holding "a.b" (num 5)))
  = Ok (mkState (store (holding "a.b" (num 5)))
                (disk (holding "a.b" (num 5))) []).
Proof. reflexivity. Qed.

(** * Further properties of the facade *)

(** ** Keys *)

Lemma join_split_dot (s : string) : join_dot (split_dot s) = s.
Proof.
  induction s as [|c r IH]; simpl; auto.
  pose proof (split_dot_nonempty r) as Hne.
  destruct (Ascii.eqb c dot) eqn:E.
  - apply Ascii.eqb_eq in E. subst c.
    destruct (split_dot r) as [|h t]; [congruence|].
    change (join_dot ("" :: h :: t)) with (String dot (join_dot (h :: t))).
    now rewrite IH.
  - destruct (split_dot r) as [|h t]; [congruence|].
    rewrite <- IH. now destruct t.
Qed.

Lemma includes_dot_split (s : string) :
  includes_dot s = true -> exists h k t, split_dot s = h :: k :: t.
Proof.
  induction s as [|c r IH]; simpl; [discriminate|].
  pose proof (split_dot_nonempty r) as Hne.
  destruct (Ascii.eqb c dot).
  - intros _. destruct (split_dot r) as [|h t]; [congruence|]. eauto.
  - intros H. destruct (IH H) as [h [k [t E]]]. rewrite E. eauto.
Qed.

Lemma no_dot_split (s : string) :
  includes_dot s = false -> split_dot s = [s].
Proof.
  induction s as [|c r IH]; simpl; auto.
  destruct (Ascii.eqb c dot); [discriminate|].
  intros H. now rewrite IH.
Qed.

(** X1. A dotted key is cut at its first dot: the row id is the text before
    it, which holds no dot, the path is the text after it, and the two
    joined by a dot give the key back. A key without a dot is its own
    single segment. *)
Theorem dotted_key_is_root_dot_path (key : string) :
  (includes_dot key = true ->
   key = root_of key ++ String dot (path_of key) /\
   includes_dot (root_of key) = false) /\
  (includes_dot key = false -> split_dot key = [key] /\ root_of key = key).
Proof.
  split; intros H.
  - split; [|apply includes_dot_root_of].
    destruct (includes_dot_split _ H) as [h [k [t E]]].
    unfold root_of, path_of. rewrite <- (join_split_dot key) at 1.
    rewrite E. reflexivity.
  - unfold root_of. now rewrite no_dot_split.
Qed.

Lemma dotted_key_is_root_dot_path_witness :
  includes_dot "user.profile.age" = true /\
  includes_dot "user" = false /\
  "user.profile.age" = root_of "user.profile.age"
                       ++ String dot (path_of "user.profile.age") /\
  root_of "user.profile.age" = "user" /\
  path_of "user.profile.age" = "profile.age" /\
  split_dot "user" = ["user"].
Proof.
  split; [reflexivity|]. split; [reflexivity|].
  destruct (dotted_key_is_root_dot_path "user.profile.age") as [H _].
  destruct (dotted_key_is_root_dot_path "user") as [_ H'].
  split; [exact (proj1 (H eq_refl))|].
  split; [reflexivity|]. split; [reflexivity|].
  exact (proj1 (H' eq_refl)).
Defined.

(** ** Reads *)

Lemma store_get_set_other (t u : string) (x : Table) (st : Store) :
  String.eqb t u = false -> store_get t (store_set u x st) = store_get t st.
Proof. apply amap_get_set_other. Qed.

Lemma rows_register_any (t u : string) (st : Store) :
  rows t (register u st) = rows t st.
Proof.
  destruct (String.eqb t u) eqn:E.
  - apply String.eqb_eq in E. subst u. apply rows_register.
  - unfold register. destruct (store_get u st) eqn:Eu; auto.
    unfold rows. now rewrite store_get_set_other by assumption.
Qed.

Lemma lookup_register_any (t u key : string) (st : Store) :
  lookup t key (register u st) = lookup t key st.
Proof. unfold lookup, row_value. now rewrite rows_register_any. Qed.

(** X2. [get] writes nothing: the disk and the log of row and file writes
    are as before, and every key of every table reads afterwards what it
    read before (the table it names is at most registered). *)
Theorem get_is_read_only
        (JSON_stringify : value -> string) (path T key T' key' : string)
        (s : State) :
  disk (snd (QuickDB.get (JSONDriver.driver JSON_stringify path) T key s))
  = disk s /\
  log (snd (QuickDB.get (JSONDriver.driver JSON_stringify path) T key s))
  = log s /\
  fst (QuickDB.get (JSONDriver.driver JSON_stringify path) T' key'
         (snd (QuickDB.get (JSONDriver.driver JSON_stringify path) T key s)))
  = fst (QuickDB.get (JSONDriver.driver JSON_stringify path) T' key' s).
Proof.
  rewrite !get_run. simpl. repeat split.
  now rewrite lookup_register_any.
Qed.

(** ** Writes leave the rest alone *)

Lemma table_get_set_other (k k' : string) (v : value) (tb : Table) :
  k' <> k ->
  table_get (VStr k') (table_set (VStr k) v tb) = table_get (VStr k') tb.
Proof.
  intros Hne. unfold table_get, table_set.
  assert (E : String.eqb k' k = false) by now apply String.eqb_neq.
  induction tb as [|[k0 v0] tb IH]; cbn [amap_get amap_set].
  - simpl. now rewrite E.
  - destruct (same_value_zero (VStr k) k0) eqn:E0; cbn [amap_get].
    + assert (H : k0 = VStr k).
      { destruct k0; simpl in E0; try discriminate.
        apply String.eqb_eq in E0. now subst. }
      subst k0. simpl. now rewrite E.
    + destruct (same_value_zero (VStr k') k0); auto.
Qed.

Lemma row_value_put_row_other (t k t' k' : string) (v : value) (st : Store) :
  t' <> t \/ k' <> k ->
  row_value t' k' (put_row t k v st) = row_value t' k' st.
Proof.
  intros H. unfold row_value, put_row.
  destruct (String.eqb t' t) eqn:E.
  - apply String.eqb_eq in E. subst t'.
    destruct H as [H|H]; [congruence|].
    unfold rows at 1. rewrite store_get_set_same.
    now rewrite table_get_set_other.
  - unfold rows. now rewrite store_get_set_other.
Qed.

(** X3. [set] touches one row: a key of another table, or of another row of
    the same table, reads after [set(key, v)] what it read before (rows
    hold plain data and share no object with one another). *)
Theorem set_leaves_other_rows
        (JSON_stringify : value -> string) (path T key T' key' : string)
        (v : value) (s : State) :
  T' <> T \/ row_of key' <> row_of key ->
  fst (QuickDB.get (JSONDriver.driver JSON_stringify path) T' key'
         (snd (QuickDB.set (JSONDriver.driver JSON_stringify path) T key v s)))
  = fst (QuickDB.get (JSONDriver.driver JSON_stringify path) T' key' s).
Proof.
  intros H. destruct (nullish v) eqn:Hv.
  - unfold QuickDB.set. rewrite Hv. reflexivity.
  - rewrite set_run by assumption. rewrite !get_run. simpl. f_equal.
    unfold lookup, row_of in *.
    destruct (includes_dot key'); now rewrite row_value_put_row_other.
Qed.

Lemma set_leaves_other_rows_witness :
  ("json" <> "json" \/ row_of "b.x" <> row_of "a.y") /\
  fst (QuickDB.get sample_driver "json" "b.x"
         (snd (QuickDB.set sample_driver "json" "a.y" (num 1)
                 (holding "b.x" (num 7)))))
  = Ok (num 7).
Proof.
  assert (H : "json" <> "json" \/ row_of "b.x" <> row_of "a.y")
    by (right; discriminate).
  split; [exact H|].
  exact (eq_trans
           (@set_leaves_other_rows JSON.stringify "./quickdb.json" "json" "a.y"
              "json" "b.x" (num 1) (holding "b.x" (num 7)) H)
           eq_refl).
Defined.





(** ** [has], and what [set] resolves with *)







(** ** [push], [pull] and [add] on their regular paths *)

Section ArrayRuns.
Variable JSON_stringify : value -> string.
Variable path : string.
Variable T : string.

Local Abbreviation jd := (JSONDriver.driver JSON_stringify path).

Lemma push_run (key : string) (v : value) (s : State) :
  nullish v = false ->
  isArray (coalesce (lookup T key (store s)) empty_array) = true ->
  QuickDB.push jd T key v s =
  QuickDB.set jd T key
    (if isArray v
     then array_concat (coalesce (lookup T key (store s)) empty_array) v
     else array_push (coalesce (lookup T key (store s)) empty_array) v)
    (with_store (register T) s).
Proof.
  intros Hv Ha. unfold QuickDB.push. rewrite Hv. unfold bind at 1.
  now rewrite getArray_run, Ha.
Qed.

End ArrayRuns.







(** * Further properties of the file-backed driver *)

(** ** One snapshot per successful write, none otherwise *)

Section WriteFacts.
Variable JSON_stringify : value -> string.
Variable path : string.

Local Abbreviation jd := (JSONDriver.driver JSON_stringify path).
Local Abbreviation persisted := (persisted JSON_stringify path).

Lemma disk_get_set_same (p c : string) (d : Disk) :
  disk_get p (disk_set p c d) = Some c.
Proof. apply amap_get_set_same, String.eqb_refl. Qed.

Lemma synced_persisted (st : Store) (d : Disk) (l : list Event) :
  synced JSON_stringify path (persisted st d l).
Proof. unfold synced. simpl. apply disk_get_set_same. Qed.

Lemma pull_array_run (t key : string) (arg : PullArg) (s : State) :
  match arg with PValue v => nullish v | PFunction _ => false end = false ->
  isArray (coalesce (lookup t key (store s)) empty_array) = true ->
  exists a,
    nullish a = false /\
    QuickDB.pull jd t key arg s =
    QuickDB.set jd t key a (with_store (register t) s).
Proof.
  intros Harg Ha. unfold QuickDB.pull. rewrite Harg. unfold bind at 1.
  rewrite getArray_run, Ha. eexists. split; [|reflexivity].
  destruct (coalesce (lookup t key (store s)) empty_array); try discriminate.
  reflexivity.
Qed.

(** Every call either returns after one row write and one write of the
    file, or leaves the disk and the log as they were. *)
Lemma run_command_cases (c : Command) (s : State) :
  (mutating c = true /\ thrown jd c s = None /\
   exists st e,
     run_command jd c s = persisted st (disk s) (log s ++ [e]) /\
     row_event e = true) \/
  ((mutating c = false \/ thrown jd c s <> None) /\
   quiet s (run_command jd c s)).
Proof.
  destruct c as [t|t|t k|t k|t k v|t k|t|t k n|t k n|t k v|t k arg]; simpl.
  - right. split; [now left|]. unfold MemoryDriver.prepare, bind.
    now rewrite getOrCreateTable_run.
  - right. split; [now left|]. now rewrite memory_getAllRows_run.
  - right. split; [now left|]. now rewrite get_run.
  - right. split; [now left|]. unfold QuickDB.has, bind. now rewrite get_run.
  - destruct (nullish v) eqn:Hv.
    + right. unfold QuickDB.set. rewrite Hv. simpl.
      split; [right; discriminate|now split].
    + left. rewrite set_run by assumption. simpl. eauto 8.
  - left. destruct (includes_dot k) eqn:Hd.
    + rewrite delete_dotted_run by assumption. simpl. eauto 8.
    + unfold QuickDB.delete. rewrite Hd. unfold bind. simpl.
      rewrite json_deleteRowByKey_run. simpl. eauto 8.
  - left. unfold QuickDB.deleteAll. simpl. rewrite json_deleteAllRows_run.
    simpl. eauto 8.
  - left. unfold QuickDB.add. rewrite addSubtract_run. simpl. eauto 8.
  - left. unfold QuickDB.sub. rewrite addSubtract_run. simpl. eauto 8.
  - destruct (nullish v) eqn:Hv.
    + right. unfold QuickDB.push. rewrite Hv. simpl.
      split; [right; discriminate|now split].
    + destruct (isArray (coalesce (lookup t k (store s)) empty_array)) eqn:Ha.
      * left. rewrite (@push_run JSON_stringify path t k v s Hv Ha).
        rewrite set_run_registered.
        -- simpl. eauto 8.
        -- destruct (coalesce (lookup t k (store s)) empty_array);
             try discriminate. now destruct v.
      * right. unfold QuickDB.push. rewrite Hv. unfold bind.
        rewrite getArray_run, Ha. simpl.
        split; [right; discriminate|now split].
  - destruct (match arg with PValue v => nullish v | PFunction _ => false end)
      eqn:Harg.
    + right. unfold QuickDB.pull. rewrite Harg. simpl.
      split; [right; discriminate|now split].
    + destruct (isArray (coalesce (lookup t k (store s)) empty_array)) eqn:Ha.
      * left. destruct (pull_array_run t k arg s Harg Ha) as [a [Hn E]].
        rewrite E, set_run_registered by assumption. simpl. eauto 8.
      * right. unfold QuickDB.pull. rewrite Harg. unfold bind.
        rewrite getArray_run, Ha. simpl.
        split; [right; discriminate|now split].
Qed.
End WriteFacts.

(** X10. Every call that writes ([set], [delete], [deleteAll], [add], [sub],
    [push], [pull]) and returns has made exactly one row write followed by
    exactly one write of the snapshot file, and the file then holds the
    serialisation of the whole store as the call left it. *)
Theorem successful_write_is_persisted
        (JSON_stringify : value -> string) (path : string)
        (c : Command) (s : State) :
  mutating c = true ->
  thrown (JSONDriver.driver JSON_stringify path) c s = None ->
  exists e,
    row_event e = true /\
    log (run_command (JSONDriver.driver JSON_stringify path) c s)
    = (log s ++
       [e;
        EvWriteFile path
          (snapshot_text JSON_stringify
             (store (run_command (JSONDriver.driver JSON_stringify path) c s)))])%list /\
    synced JSON_stringify path
           (run_command (JSONDriver.driver JSON_stringify path) c s).
Proof.
  intros Hm Hok.
  destruct (run_command_cases JSON_stringify path c s)
    as [[_ [_ [st [e [E He]]]]]|[[H|H] _]]; try congruence.
  rewrite E. exists e. split; [exact He|]. split.
  - simpl. now rewrite <- app_assoc.
  - apply synced_persisted.
Qed.

Lemma successful_write_is_persisted_witness :
  mutating (CPush "json" "arr" (num 1)) = true /\
  thrown sample_driver (CPush "json" "arr" (num 1)) fresh = None /\
  log (run_command sample_driver (CPush "json" "arr" (num 1)) fresh)
  = [EvSetRow "json" "arr" (array_of [num 1]);
     EvWriteFile "./quickdb.json"
       (JSON.stringify
          (VObj [("json", array_of [DataLike (VStr "arr") (array_of [num 1])])]))] /\
  synced JSON.stringify "./quickdb.json"
         (run_command sample_driver (CPush "json" "arr" (num 1)) fresh).
Proof.
  split; [reflexivity|]. split; [reflexivity|]. split; [reflexivity|].
  destruct (@successful_write_is_persisted JSON.stringify "./quickdb.json"
              (CPush "json" "arr" (num 1)) fresh eq_refl eq_refl)
    as [e [_ [_ H]]].
  exact H.
Defined.

(** X11. A call that throws, and a call that only reads ([prepare], [all],
    [get], [has]), writes nothing: the disk and the log of row and file
    writes are as before. *)
Theorem failed_calls_and_reads_write_nothing
        (JSON_stringify : value -> string) (path : string)
        (c : Command) (s : State) :
  mutating c = false \/
  thrown (JSONDriver.driver JSON_stringify path) c s <> None ->
  disk (run_command (JSONDriver.driver JSON_stringify path) c s) = disk s /\
  log (run_command (JSONDriver.driver JSON_stringify path) c s) = log s.
Proof.
  intros H.
  destruct (run_command_cases JSON_stringify path c s)
    as [[Hm [Hok _]]|[_ Hq]]; [|exact Hq].
  destruct H as [H|H]; congruence.
Qed.

Lemma failed_calls_and_reads_write_nothing_witness :
  (mutating (CPush "json" "a" (num 1)) = false \/
   thrown sample_driver (CPush "json" "a" (num 1)) (holding "a" (num 3)) <> None) /\
  disk (run_command sample_driver (CPush "json" "a" (num 1)) (holding "a" (num 3)))
  = disk (holding "a" (num 3)) /\
  log (run_command sample_driver (CPush "json" "a" (num 1)) (holding "a" (num 3)))
  = log (holding "a" (num 3)).
Proof.
  assert (H : mutating (CPush "json" "a" (num 1)) = false \/
              thrown sample_driver (CPush "json" "a" (num 1))
                     (holding "a" (num 3)) <> None)
    by (right; discriminate).
  split; [exact H|].
  exact (@failed_calls_and_reads_write_nothing JSON.stringify "./quickdb.json"
           (CPush "json" "a" (num 1)) (holding "a" (num 3)) H).
Defined.

(** ** Computations that keep a relation between states *)

Section Stable.
Variable R : State -> State -> Prop.
Hypothesis R_refl : forall s, R s s.
Hypothesis R_trans : forall s1 s2 s3, R s1 s2 -> R s2 s3 -> R s1 s3.

Lemma stable_ret {A} (a : A) : stable R (ret a).
Proof. intros s. apply R_refl. Qed.

Lemma stable_throw {A} (e : Error) : stable R (@throw A e).
Proof. intros s. apply R_refl. Qed.

Lemma stable_gets {A} (f : State -> A) : stable R (gets f).
Proof. intros s. apply R_refl. Qed.

Lemma stable_bind {A B} (m : M A) (k : A -> M B) :
  stable R m -> (forall a, stable R (k a)) -> stable R (bind m k).
Proof.
  intros Hm Hk s. unfold bind. specialize (Hm s).
  destruct (m s) as [[a|e] s']; simpl in *; auto.
  eapply R_trans; [exact Hm|apply Hk].
Qed.

Lemma stable_try_catch {A} (m : M A) (h : Error -> M A) :
  stable R m -> (forall e, stable R (h e)) -> stable R (try_catch m h).
Proof.
  intros Hm Hh s. unfold try_catch. specialize (Hm s).
  destruct (m s) as [[a|e] s']; simpl in *; auto.
  eapply R_trans; [exact Hm|apply Hh].
Qed.

Lemma stable_for_each {A} (l : list A) (body : A -> M unit) :
  (forall x, stable R (body x)) -> stable R (for_each l body).
Proof.
  intros Hb. induction l as [|x l IH]; simpl.
  - apply stable_ret.
  - apply stable_bind; auto.
Qed.

(** What the six operations of a driver keep, the facade keeps. *)
Section StableFacade.
Variable driver : IDriver.
Hypothesis stable_prepare : forall t, stable R (prepare driver t).
Hypothesis stable_getAllRows : forall t, stable R (getAllRows driver t).
Hypothesis stable_getRowByKey : forall t k, stable R (getRowByKey driver t k).
Hypothesis stable_setRowByKey :
  forall t k v b, stable R (setRowByKey driver t k v b).
Hypothesis stable_deleteRowByKey :
  forall t k, stable R (deleteRowByKey driver t k).
Hypothesis stable_deleteAllRows : forall t, stable R (deleteAllRows driver t).

Ltac stable_step :=
  first
    [ apply stable_ret
    | apply stable_throw
    | apply stable_getRowByKey
    | apply stable_setRowByKey
    | apply stable_deleteRowByKey
    | apply stable_deleteAllRows
    | apply stable_getAllRows
    | apply stable_prepare
    | apply stable_try_catch; [|intros ?]
    | apply stable_bind; [|intros ?]
    | match goal with
      | |- stable _ (if ?b then _ else _) => destruct b
      end ].

Lemma stable_get (t k : string) : stable R (QuickDB.get driver t k).
Proof. unfold QuickDB.get. repeat stable_step. Qed.

Lemma stable_set (t k : string) (v : value) : stable R (QuickDB.set driver t k v).
Proof. unfold QuickDB.set. repeat stable_step. Qed.

Lemma stable_delete (t k : string) : stable R (QuickDB.delete driver t k).
Proof.
  unfold QuickDB.delete.
  repeat first [apply stable_get | apply stable_set | stable_step].
Qed.

Lemma stable_addSubtract (t k : string) (n : number) (b : bool) :
  stable R (QuickDB.addSubtract driver t k n b).
Proof.
  unfold QuickDB.addSubtract.
  repeat first [apply stable_get | apply stable_set | stable_step].
Qed.

Lemma stable_getArray (t k : string) : stable R (QuickDB.getArray driver t k).
Proof.
  unfold QuickDB.getArray. repeat first [apply stable_get | stable_step].
Qed.

Lemma stable_push (t k : string) (v : value) :
  stable R (QuickDB.push driver t k v).
Proof.
  unfold QuickDB.push.
  repeat first [apply stable_getArray | apply stable_set | stable_step].
Qed.

Lemma stable_pull (t k : string) (arg : PullArg) :
  stable R (QuickDB.pull driver t k arg).
Proof.
  unfold QuickDB.pull.
  repeat first [apply stable_getArray | apply stable_set | stable_step].
Qed.

Lemma stable_run_command (c : Command) (s : State) :
  R s (run_command driver c s).
Proof.
  destruct c; simpl.
  - apply stable_prepare.
  - apply stable_getAllRows.
  - apply stable_get.
  - unfold QuickDB.has. apply stable_bind; [apply stable_get|].
    intros ?. apply stable_ret.
  - apply stable_set.
  - apply stable_delete.
  - apply stable_deleteAllRows.
  - apply stable_addSubtract.
  - apply stable_addSubtract.
  - apply stable_push.
  - apply stable_pull.
Qed.

Lemma stable_run_commands (cs : list Command) (s : State) :
  R s (run_commands driver cs s).
Proof.
  revert s. induction cs as [|c cs IH]; intros s; simpl; auto.
  eapply R_trans; [apply stable_run_command|apply IH].
Qed.
End StableFacade.
End Stable.

Lemma quiet_refl (s : State) : quiet s s.
Proof. now split. Qed.

Lemma quiet_trans (s1 s2 s3 : State) : quiet s1 s2 -> quiet s2 s3 -> quiet s1 s3.
Proof. intros [A B] [C D]. split; congruence. Qed.

Lemma quiet_getOrCreateTable (t : string) :
  stable quiet (MemoryDriver.getOrCreateTable t).
Proof. intros s. rewrite getOrCreateTable_run. now split. Qed.

Lemma quiet_table_put (t : string) (id v : value) :
  stable quiet (MemoryDriver.table_put t id v).
Proof. intros s. now split. Qed.

(** ** Loading the snapshot file *)

Section LoadFacts.
Variable JSON_parse : string -> option value.
Variable path : string.

Lemma quiet_load_rows (t : string) (rows : value) :
  stable quiet (JSONDriver.load_rows t rows).
Proof.
  destruct rows; simpl;
    try (apply stable_throw; exact quiet_refl).
  apply stable_for_each; [exact quiet_refl|exact quiet_trans|].
  intros d. destruct (nullish d).
  - apply stable_throw. exact quiet_refl.
  - apply quiet_table_put.
Qed.

Lemma quiet_load (data : value) :
  stable quiet
    (for_each (for_in_keys data) (fun table =>
       _ <- MemoryDriver.getOrCreateTable table ;;
       JSONDriver.load_rows table (prop_get data table))).
Proof.
  apply stable_for_each; [exact quiet_refl|exact quiet_trans|].
  intros t. apply stable_bind; [exact quiet_trans| |].
  - apply quiet_getOrCreateTable.
  - intros _. apply quiet_load_rows.
Qed.
End LoadFacts.

(** X12. When the snapshot file exists, loading never writes: whether
    [loadContentSync] returns or throws, the disk is what it was (a
    malformed file is rejected, not replaced by the empty snapshot) and no
    row or file write was made. *)
Theorem existing_file_is_never_rewritten
        (JSON_parse : string -> option value) (path contents : string)
        (s : State) :
  disk_get path (disk s) = Some contents ->
  disk (snd (JSONDriver.loadContentSync JSON_parse path s)) = disk s /\
  log (snd (JSONDriver.loadContentSync JSON_parse path s)) = log s.
Proof.
  intros Hfile.
  assert (H : stable quiet
                (try_catch
                   (match JSON_parse contents with
                    | None => throw (SyntaxError "Unexpected token")
                    | Some data =>
                        for_each (for_in_keys data) (fun table =>
                          _ <- MemoryDriver.getOrCreateTable table ;;
                          JSONDriver.load_rows table (prop_get data table))
                    end)
                   (fun _ => throw (Err "Database malformed")))).
  { apply stable_try_catch; [exact quiet_trans| |].
    - destruct (JSON_parse contents).
      + apply quiet_load.
      + apply stable_throw. exact quiet_refl.
    - intros _. apply stable_throw. exact quiet_refl. }
  unfold JSONDriver.loadContentSync, bind, JSONDriver.readFile, gets.
  rewrite Hfile. exact (H s).
Qed.

Lemma existing_file_is_never_rewritten_witness :
  disk_get "./quickdb.json" [("./quickdb.json", "{")] = Some "{" /\
  JSONDriver.loadContentSync JSON.parse "./quickdb.json"
    (mkState [] [("./quickdb.json", "{")] [])
  = (Throw (Err "Database malformed"),
     mkState [] [("./quickdb.json", "{")] []) /\
  disk (snd (JSONDriver.loadContentSync JSON.parse "./quickdb.json"
               (mkState [] [("./quickdb.json", "{")] [])))
  = [("./quickdb.json", "{")].
Proof.
  split; [reflexivity|]. split; [reflexivity|].
  exact (proj1 (@existing_file_is_never_rewritten JSON.parse "./quickdb.json"
                  "{" (mkState [] [("./quickdb.json", "{")] []) eq_refl)).
Defined.

(** X13. A snapshot file whose text parses to a value with nothing to
    enumerate ([null], a number, a boolean, the empty object or the empty
    array) is accepted: the driver comes up with an empty store and the
    file is left as it is. *)
Theorem snapshot_without_tables_loads_empty
        (JSON_parse : string -> option value) (path contents : string)
        (data : value) (d : Disk) :
  disk_get path d = Some contents ->
  JSON_parse contents = Some data ->
  for_in_keys data = [] ->
  JSONDriver.new JSON_parse path d = Ok (mkState [] d []).
Proof.
  intros Hfile Hparse Hkeys.
  unfold JSONDriver.new, JSONDriver.loadContentSync, bind,
    JSONDriver.readFile, gets. simpl.
  now rewrite Hfile, Hparse, Hkeys.
Qed.

Lemma snapshot_without_tables_loads_empty_witness :
  disk_get "./quickdb.json" [("./quickdb.json", "null")] = Some "null" /\
  JSON.parse "null" = Some VNull /\
  for_in_keys VNull = [] /\
  JSONDriver.new JSON.parse "./quickdb.json" [("./quickdb.json", "null")]
  = Ok (mkState [] [("./quickdb.json", "null")] []).
Proof.
  split; [reflexivity|]. split; [reflexivity|]. split; [reflexivity|].
  exact (@snapshot_without_tables_loads_empty JSON.parse "./quickdb.json"
           "null" VNull [("./quickdb.json", "null")] eq_refl eq_refl eq_refl).
Defined.





(** ** Export *)



(** ** Maps without repeated keys *)

Section DistinctFacts.
Context {K V : Type} (eqb : K -> K -> bool).

Lemma amap_get_none_forall (k : K) (m : list (K * V)) :
  amap_get eqb k m = None <-> Forall (fun kv => eqb k (fst kv) = false) m.
Proof.
  induction m as [|[k0 v0] m IH]; simpl.
  - split; auto.
  - destruct (eqb k k0) eqn:E.
    + split; [discriminate|]. intros H. inversion H. simpl in *. congruence.
    + rewrite IH. split.
      * intros H. now constructor.
      * intros H. now inversion H.
Qed.




Lemma Forall_keys_amap_set (Q : K -> Prop) (k : K) (v : V) (m : list (K * V)) :
  Forall (fun kv => Q (fst kv)) m -> Q k ->
  Forall (fun kv => Q (fst kv)) (amap_set eqb k v m).
Proof.
  intros H Hk. induction H as [|[k0 v0] m H0 H1 IH]; simpl.
  - now constructor.
  - simpl in H0. destruct (eqb k k0); constructor; simpl; auto.
Qed.

Lemma Forall_amap_delete (P : K * V -> Prop) (k : K) (m : list (K * V)) :
  Forall P m -> Forall P (amap_delete eqb k m).
Proof.
  intros H. induction H as [|[k0 v0] m H0 _ IH]; simpl; auto.
  destruct (eqb k k0); auto.
Qed.

Lemma Forall_values_amap_set (P : V -> Prop) (k : K) (v : V) (m : list (K * V)) :
  Forall (fun kv => P (snd kv)) m -> P v ->
  Forall (fun kv => P (snd kv)) (amap_set eqb k v m).
Proof.
  intros H Hv. induction H as [|[k0 v0] m H0 H1 IH]; simpl.
  - now constructor.
  - simpl in H0. destruct (eqb k k0); constructor; simpl; auto.
Qed.

Lemma Forall_values_amap_get (P : V -> Prop) (k : K) (v : V) (m : list (K * V)) :
  Forall (fun kv => P (snd kv)) m -> amap_get eqb k m = Some v -> P v.
Proof.
  intros H. induction H as [|[k0 v0] m H0 _ IH]; simpl; [discriminate|].
  destruct (eqb k k0); auto. intros E. now inversion E; subst.
Qed.

(** [Map.prototype.set] keeps the keys distinct. *)
Lemma distinct_keys_amap_set (k : K) (v : V) (m : list (K * V)) :
  distinct_keys eqb m -> distinct_keys eqb (amap_set eqb k v m).
Proof.
  induction m as [|[k0 v0] m IH]; simpl.
  - intros _. split; [constructor|exact I].
  - intros [Hf Hd]. destruct (eqb k k0) eqn:E; simpl.
    + now split.
    + split; [|now apply IH].
      apply (Forall_keys_amap_set (fun x => eqb x k0 = false)); assumption.
Qed.

(** [Map.prototype.delete] keeps the keys distinct. *)
Lemma distinct_keys_amap_delete (k : K) (m : list (K * V)) :
  distinct_keys eqb m -> distinct_keys eqb (amap_delete eqb k m).
Proof.
  induction m as [|[k0 v0] m IH]; simpl; auto.
  intros [Hf Hd]. destruct (eqb k k0); simpl; auto.
  split; [now apply Forall_amap_delete|now apply IH].
Qed.


End DistinctFacts.


(** ** The store stays well formed *)

Lemma well_formed_store_set (t : string) (tb : Table) (st : Store) :
  well_formed st -> distinct_keys same_value_zero tb ->
  well_formed (store_set t tb st).
Proof.
  intros [H1 H2] Htb. split.
  - now apply distinct_keys_amap_set.
  - apply (Forall_values_amap_set String.eqb
             (fun tb => distinct_keys same_value_zero tb)); assumption.
Qed.

Lemma well_formed_rows (t : string) (st : Store) :
  well_formed st -> distinct_keys same_value_zero (rows t st).
Proof.
  intros [_ H2]. unfold rows. destruct (store_get t st) as [tb|] eqn:E.
  - exact (@Forall_values_amap_get _ _ String.eqb
             (fun tb => distinct_keys same_value_zero tb) t tb st H2 E).
  - exact I.
Qed.

Lemma well_formed_register (t : string) (st : Store) :
  well_formed st -> well_formed (register t st).
Proof.
  intros H. unfold register. destruct (store_get t st); auto.
  now apply well_formed_store_set.
Qed.

Lemma well_formed_put_row (t k : string) (v : value) (st : Store) :
  well_formed st -> well_formed (put_row t k v st).
Proof.
  intros H. apply well_formed_store_set; auto.
  apply distinct_keys_amap_set. now apply well_formed_rows.
Qed.

Lemma keeps_well_formed_refl (s : State) : keeps_well_formed s s.
Proof. now intros H. Qed.

Lemma keeps_well_formed_trans (s1 s2 s3 : State) :
  keeps_well_formed s1 s2 -> keeps_well_formed s2 s3 -> keeps_well_formed s1 s3.
Proof. unfold keeps_well_formed. auto. Qed.

Lemma well_formed_getOrCreateTable (t : string) :
  stable keeps_well_formed (MemoryDriver.getOrCreateTable t).
Proof.
  intros s H. rewrite getOrCreateTable_run. simpl.
  now apply well_formed_register.
Qed.

Lemma well_formed_table_put (t : string) (id v : value) :
  stable keeps_well_formed (MemoryDriver.table_put t id v).
Proof.
  intros s H. simpl. destruct (store_get t (store s)) as [tb|] eqn:E; auto.
  apply well_formed_store_set; auto.
  apply distinct_keys_amap_set.
  replace tb with (rows t (store s)) by (unfold rows; now rewrite E).
  now apply well_formed_rows.
Qed.

Section WellFormedFacts.
Variable JSON_stringify : value -> string.
Variable path : string.

Local Abbreviation jd := (JSONDriver.driver JSON_stringify path).

Lemma well_formed_run_command (c : Command) (s : State) :
  keeps_well_formed s (run_command jd c s).
Proof.
  apply stable_run_command.
  - exact keeps_well_formed_refl.
  - exact keeps_well_formed_trans.
  - intros t s0 H. simpl. unfold MemoryDriver.prepare, bind.
    rewrite getOrCreateTable_run. simpl. now apply well_formed_register.
  - intros t s0 H. simpl. rewrite memory_getAllRows_run. simpl.
    now apply well_formed_register.
  - intros t k s0 H. simpl. rewrite memory_getRowByKey_run. simpl.
    now apply well_formed_register.
  - intros t k v b s0 H. simpl. rewrite json_setRowByKey_run. simpl.
    now apply well_formed_put_row.
  - intros t k s0 H. simpl. rewrite json_deleteRowByKey_run. simpl.
    apply well_formed_store_set; auto.
    apply distinct_keys_amap_delete. now apply well_formed_rows.
  - intros t s0 H. simpl. rewrite json_deleteAllRows_run. simpl.
    apply well_formed_store_set; auto. exact I.
Qed.

Lemma well_formed_run_commands (cs : list Command) (s : State) :
  keeps_well_formed s (run_commands jd cs s).
Proof.
  revert s. induction cs as [|c cs IH]; intros s; simpl.
  - apply keeps_well_formed_refl.
  - eapply keeps_well_formed_trans; [apply well_formed_run_command|apply IH].
Qed.
End WellFormedFacts.

Lemma well_formed_loadContentSync (JSON_parse : string -> option value)
      (path : string) :
  stable keeps_well_formed (JSONDriver.loadContentSync JSON_parse path).
Proof.
  unfold JSONDriver.loadContentSync.
  apply stable_bind; [exact keeps_well_formed_trans| |].
  - apply stable_gets. exact keeps_well_formed_refl.
  - intros [contents|].
    + apply stable_try_catch; [exact keeps_well_formed_trans| |].
      * destruct (JSON_parse contents) as [data|].
        -- apply stable_for_each;
             [exact keeps_well_formed_refl|exact keeps_well_formed_trans|].
           intros t. apply stable_bind; [exact keeps_well_formed_trans| |].
           ++ apply well_formed_getOrCreateTable.
           ++ intros _. unfold JSONDriver.load_rows.
              destruct (prop_get data t);
                try (apply stable_throw; exact keeps_well_formed_refl).
              apply stable_for_each;
                [exact keeps_well_formed_refl|exact keeps_well_formed_trans|].
              intros d. destruct (nullish d).
              ** apply stable_throw. exact keeps_well_formed_refl.
              ** apply well_formed_table_put.
        -- apply stable_throw. exact keeps_well_formed_refl.
      * intros _. apply stable_throw. exact keeps_well_formed_refl.
    + intros s H. exact H.
Qed.

Lemma well_formed_new (JSON_parse : string -> option value)
      (path : string) (d : Disk) (s0 : State) :
  JSONDriver.new JSON_parse path d = Ok s0 -> well_formed (store s0).
Proof.
  intros Hnew. unfold JSONDriver.new in Hnew.
  pose proof (well_formed_loadContentSync JSON_parse path (mkState [] d []))
    as H.
  destruct (JSONDriver.loadContentSync JSON_parse path (mkState [] d []))
    as [[u|e] s1]; [|discriminate].
  injection Hnew as <-. apply H. simpl. split; [exact I|constructor].
Qed.

(** X16. In every state that the driver can reach (it was constructed from
    some disk, then any calls were made on any tables), no table name is
    registered twice and no table holds a row id twice. *)
Theorem reachable_store_is_well_formed
        (JSON_parse : string -> option value) (JSON_stringify : value -> string)
        (path : string) (d : Disk) (s0 : State) (cs : list Command) :
  JSONDriver.new JSON_parse path d = Ok s0 ->
  well_formed
    (store (run_commands (JSONDriver.driver JSON_stringify path) cs s0)).
Proof.
  intros Hnew. apply well_formed_run_commands.
  now apply well_formed_new with (JSON_parse := JSON_parse) (path := path) (d := d).
Qed.

Lemma reachable_store_is_well_formed_witness :
  JSONDriver.new JSON.parse "./quickdb.json" [] = Ok (mkState [] [("./quickdb.json", "{}")] [EvWriteFile "./quickdb.json" "{}"]) /\
  well_formed
    (store (run_commands sample_driver
              [CSet "json" "a" (num 1); CSet "other" "a" (num 2);
               CSet "json" "a" (num 3); CDelete "json" "b.c"]
              (mkState [] [("./quickdb.json", "{}")]
                       [EvWriteFile "./quickdb.json" "{}"]))).
Proof.
  split; [reflexivity|].
  exact (@reachable_store_is_well_formed JSON.parse JSON.stringify
           "./quickdb.json" [] _
           [CSet "json" "a" (num 1); CSet "other" "a" (num 2);
            CSet "json" "a" (num 3); CDelete "json" "b.c"] eq_refl).
Defined.

(** ** Restart *)











(** ** More on [delete], [add] and [sub] *)






